(** * Vendor catalog import: the synchronization engine, embedded and verified

    Shallow embedding of the Odoo add-on [vendor_catalog_import]:
    - [models/vendor_catalog.py]               (resolver, base upsert, run loop)
    - [models/_brand_notes_patch.py]           (description overlay)
    - [models/_gallery_patch.py]               (gallery overlay)
    - [models/_ecom_public_category_patch.py]  (category path splitting)
    - [models/_import_stats_patch.py]          (statistics reconciler)
    - [myscript/catalog_map_wrapper.py], [myscript/infortisa/infortisa_catalog.py]
                                               (flat category mapping)

    Conventions.  A Python [str] is a Rocq [string] whose characters are the
    code points below 256, one [ascii] per character.  A Python [dict] with
    string keys is a [gmap string _].  A recordset returned by [search] is the
    list of matching records in store (id) order; [limit=1] takes its head. *)

From Stdlib Require Import ZArith QArith Ascii String List Lia Bool.
From Stdlib Require Import DecimalString DecimalNat.
From stdpp Require Import gmap strings list fin_maps.

Open Scope string_scope.
Open Scope list_scope.
Open Scope nat_scope.

(** ** Python strings *)

Module PyStr.

Definition chars (s : string) : list ascii := list_ascii_of_string s.
Definition str (l : list ascii) : string := string_of_list_ascii l.

(** [str.isspace] on one character, for code points below 256:
TAB..CR, FS..US, SPACE, NEL and NBSP. *)
Definition is_space (c : ascii) : bool :=
let n := nat_of_ascii c in
(Nat.leb 9 n && Nat.leb n 13) || (Nat.leb 28 n && Nat.leb n 32)
|| Nat.eqb n 133 || Nat.eqb n 160.

Fixpoint lstrip (l : list ascii) : list ascii :=
match l with
| c :: tl => if is_space c then lstrip tl else l
| [] => []
end.

Definition rstrip (l : list ascii) : list ascii := rev (lstrip (rev l)).

(** [s.strip()] *)
Definition strip_chars (l : list ascii) : list ascii := lstrip (rstrip l).
Definition strip (s : string) : string := str (strip_chars (chars s)).

(** [str(i)] for a non-negative integer. *)
Definition str_of_nat (n : nat) : string :=
NilZero.string_of_uint (Nat.to_uint n).

(** [\d] on code points below 256. *)
Definition is_digit (c : ascii) : bool :=
let n := nat_of_ascii c in Nat.leb 48 n && Nat.leb n 57.

(** [int(num)] for a run of decimal digits. *)
Definition int_of_digits (l : list ascii) : nat :=
fold_left (fun acc c => 10 * acc + (nat_of_ascii c - 48)) l 0.

(** [c.lower()] on ASCII letters. *)
Definition lower_char (c : ascii) : ascii :=
let n := nat_of_ascii c in
if Nat.leb 65 n && Nat.leb n 90 then ascii_of_nat (n + 32) else c.

(** Truthiness of a string: non-empty. *)
Definition nonempty (s : string) : bool :=
match s with EmptyString => false | _ => true end.

(** [a or b] on strings. *)
Definition or_str (a b : string) : string := if nonempty a then a else b.

End PyStr.
Import PyStr.

(** ** Category path splitting ([_ecom_public_category_patch.py]) *)

Module EcomPath.

(** Flush of the buffer: [seg = ''.join(buf).strip(); if seg: parts.append(seg)]. *)
Definition flush (buf : list ascii) (parts : list string) : list string :=
let seg := str (strip_chars buf) in
if nonempty seg then parts ++ [seg] else parts.

(** The update of [depth] at the head of the loop body. *)
Definition bump (ch : ascii) (depth : nat) : nat :=
if Ascii.eqb ch "(" then S depth
else if Ascii.eqb ch ")" && Nat.ltb 0 depth then pred depth
else depth.

(** The [while i < n] loop.  The index [i] is carried as the suffix
[s[i:]] still to be read together with [prev], the character [s[i-1]]
([None] when [i = 0]); [i+2 < n] reads "the suffix has three characters"
and [i+1 == n] reads "the suffix has one character". *)
Fixpoint scan (prev : option ascii) (rest : list ascii) (depth : nat)
(buf : list ascii) (parts : list string) : list string * list ascii :=
match rest with
| [] => (parts, buf)
| ch :: tl =>
let depth := bump ch depth in
let gt_or_plain :=
if Nat.eqb depth 0 && Ascii.eqb ch ">"
&& match prev with Some p => Ascii.eqb p " " | None => false end
&& match tl with [] => true | c1 :: _ => Ascii.eqb c1 " " end
then scan (Some ch) tl depth [] (flush buf parts)
else scan (Some ch) tl depth (buf ++ [ch]) parts in
match tl with
| c1 :: ((c2 :: tl2) as tl1) =>
if Nat.eqb depth 0 && Ascii.eqb ch " " && Ascii.eqb c1 "/" && Ascii.eqb c2 " "
then scan (Some c2) tl2 depth [] (flush buf parts)
else gt_or_plain
| _ => gt_or_plain
end
end.

(** [_smart_split_ecom_path(text)] for a string [text]. *)
Definition _smart_split_ecom_path (text : string) : list string :=
let s := chars text in
let '(parts, buf) := scan None s 0 [] [] in
let parts := flush buf parts in
match parts with
| [] => [strip text]
| _ => parts
end.

End EcomPath.

(** ** Gallery URL derivation ([_gallery_patch.py]) *)

Module GalleryUrls.

Definition is_sep (c : ascii) : bool := Ascii.eqb c "-" || Ascii.eqb c "_".

Definition is_newline (c : ascii) : bool := Ascii.eqb c "010".

(** [(?P<ext>jpg|jpeg|png|webp)$] under [re.I]. *)
Definition ext_ok (e : list ascii) : bool :=
let l := str (map lower_char e) in
String.eqb l "jpg" || String.eqb l "jpeg" || String.eqb l "png"
|| String.eqb l "webp".

(** [\.(?P<ext>...)$] *)
Definition dot_ext (t : list ascii) : option (list ascii) :=
match t with
| "."%char :: e => if ext_ok e then Some e else None
| _ => None
end.

Definition orelse {A} (a b : option A) : option A :=
match a with Some _ => a | None => b end.

(** [(?P<num>\d{1,2})?] followed by the extension: two digits are tried
first, then one, then none. *)
Definition num_ext (t : list ascii) : option (option (list ascii) * list ascii) :=
let two := match t with
| d1 :: d2 :: t2 =>
if is_digit d1 && is_digit d2
then option_map (fun e => (Some [d1; d2], e)) (dot_ext t2)
else None
| _ => None
end in
let one := match t with
| d1 :: t1 =>
if is_digit d1
then option_map (fun e => (Some [d1], e)) (dot_ext t1)
else None
| _ => None
end in
orelse two (orelse one (option_map (fun e => (None, e)) (dot_ext t))).

(** [(?P<sep>[-_])?] followed by the rest: the separator is tried first. *)
Definition sep_num_ext (t : list ascii)
: option (option ascii * option (list ascii) * list ascii) :=
let with_sep := match t with
| c :: t1 =>
if is_sep c
then option_map (fun '(n, e) => (Some c, n, e)) (num_ext t1)
else None
| _ => None
end in
orelse with_sep (option_map (fun '(n, e) => (None, n, e)) (num_ext t)).

(** [^(?P<base>.+?)...]: the lazy group takes one more character (never a
line feed) each time the rest of the pattern fails. *)
Fixpoint lazy_base (acc rest : list ascii)
: option (list ascii * option ascii * option (list ascii) * list ascii) :=
match rest with
| [] => None
| c :: tl =>
if is_newline c then None
else match sep_num_ext tl with
| Some (sp, n, e) => Some (acc ++ [c], sp, n, e)
| None => lazy_base (acc ++ [c]) tl
end
end.

(** [murl.rsplit('.', 1)]: [None] when there is no dot (the unpacking
raises [ValueError]). *)
Definition rsplit_dot (m : list ascii) : option (list ascii * list ascii) :=
let fix go (seen r : list ascii) :=
match r with
| [] => None
| c :: tl => if Ascii.eqb c "." then Some (rev tl, seen) else go (c :: seen) tl
end in
go [] (rev m).

(** [range(a, b)] *)
Definition range (a b : nat) : list nat := seq a (b - a).

(** [_derive_numbered_urls(main_url, max_images)] *)
Definition _derive_numbered_urls (main_url : string) (max_images : nat) : list string :=
if negb (nonempty main_url) then []
else
let murl := strip_chars (chars main_url) in
match lazy_base [] murl with
| None =>
match rsplit_dot murl with
| None => []
| Some (base, ext) =>
map (fun i => (str base ++ "_" ++ str_of_nat i ++ "." ++ str ext)%string)
(range 2 (max_images + 1))
end
| Some (base, sp, num, ext) =>
let sep := match sp with Some c => String c "" | None => "_" end in
let start := match num with
| Some d => if Nat.leb 1 (int_of_digits d)
then int_of_digits d + 1 else 2
| None => 2
end in
map (fun i => (str base ++ sep ++ str_of_nat i ++ "." ++ str ext)%string)
(range start (max_images + 1))
end.

End GalleryUrls.

(** ** Python values, exceptions and the outside world *)

Module Py.

(** The values a feed item or a record field can hold.  A Python [float]
is carried as a rational: the engine only moves floats around and
compares them with zero. *)
Inductive value :=
| VNone
| VBool (b : bool)
| VInt (z : Z)
| VFloat (q : Q)
| VStr (s : string)
| VList (l : list string)
| VIds (l : list nat).

(** [bool(v)] *)
Definition truthy (v : value) : bool :=
match v with
| VNone => false
| VBool b => b
| VInt z => negb (Z.eqb z 0)
| VFloat q => negb (Qeq_bool q 0)
| VStr s => nonempty s
| VList l => match l with [] => false | _ => true end
| VIds l => match l with [] => false | _ => true end
end.

(** [a or b] *)
Definition py_or (a b : value) : value := if truthy a then a else b.

(** [d.get(k)] *)
Definition get (d : gmap string value) (k : string) : value :=
default VNone (d !! k).

(** An exception: its class name and [str(e)]. *)
Record exn := Exn { exn_class : string; exn_msg : string }.

Inductive result (A : Type) :=
| Ok (a : A)
| Raise (e : exn).
Arguments Ok {A} a.
Arguments Raise {A} e.

Definition UserError (msg : string) : exn := Exn "UserError" msg.
Definition AttributeError (msg : string) : exn := Exn "AttributeError" msg.

End Py.
Export Py.

(** What the engine takes from outside the add-on: Python built-ins on
    text, the network, the image codec, the target schema, and two text
    utilities whose output no property below depends on. *)
Class World := {
  (** [float(s)] on a string; [None] stands for [ValueError]. *)
  float_of_str : string -> option Q;
  (** [int(s)] on a string; [None] stands for [ValueError]. *)
  int_of_str : string -> option Z;
  (** [str(f)] on a float. *)
  str_of_float : Q -> string;
  (** [repr] of a list of strings, as [str] prints it. *)
  str_of_list : list string -> string;
  (** [requests is not None] *)
  requests_available : bool;
  (** The request loop of [_download_first_ok(url)] in [vendor_catalog.py]:
      the first non-empty body among the picture-URL candidates, [None] when
      none answers. *)
  download_first_ok : string -> option string;
  (** [base64.b64encode] *)
  b64encode : string -> string;
  (** Whether an image field accepts the payload; when it does not, the
      write raises the "could not be decoded as an image" user error. *)
  image_accepts : string -> bool;
  (** [name in ProductT._fields], [name in PP._fields], [name in Public._fields] *)
  pt_has : string -> bool;
  pp_has : string -> bool;
  pc_has : string -> bool;
  (** [model in self.env] *)
  env_has : string -> bool;
  (** [_as_html] of [_brand_notes_patch.py] on [str(text)] for a non-empty
      text: the markup, or [None] for its [False]. *)
  as_html_text : string -> option string;
  (** [difflib.get_close_matches(key, keys, n=1, cutoff=0.92)] *)
  get_close_matches : string -> list string -> list string
}.

(** A store-passing computation that may raise: effects made before the
    exception stay in the store, as nothing in the engine rolls back. *)
Module Eff.
Section WithState.
Context {S : Type}.

Definition M (A : Type) : Type := S -> S * result A.

Definition ret {A} (a : A) : M A := fun st => (st, Ok a).
Definition raise {A} (e : exn) : M A := fun st => (st, Raise e).
Definition bind {A B} (m : M A) (k : A -> M B) : M B :=
fun st => match m st with
| (st', Ok a) => k a st'
| (st', Raise e) => (st', Raise e)
end.
Definition gets {A} (f : S -> A) : M A := fun st => (st, Ok (f st)).
Definition modify (f : S -> S) : M unit := fun st => (f st, Ok tt).
(** A pure step that may raise. *)
Definition lift {A} (r : result A) : M A := fun st => (st, r).
End WithState.
End Eff.

#[global] Instance eff_ret {S} : MRet (@Eff.M S) := @Eff.ret S.
#[global] Instance eff_bind {S} : MBind (@Eff.M S) :=
  fun A B k m => Eff.bind m k.

#[global] Instance Q_eq_dec : EqDecision Q.
Proof. solve_decision. Defined.
#[global] Instance value_eq_dec : EqDecision value.
Proof. solve_decision. Defined.

Section PyBuiltins.
Context `{World}.

(** [str(v)] *)
Definition py_str (v : value) : string :=
match v with
| VNone => "None"
| VBool true => "True"
| VBool false => "False"
| VInt z => NilZero.string_of_int (Z.to_int z)
| VFloat q => str_of_float q
| VStr s => s
| VList l => str_of_list l
| VIds _ => ""
end.

(** [float(x)], [None] standing for the exception. *)
Definition py_float (v : value) : option Q :=
match v with
| VBool b => Some (if b then 1%Q else 0%Q)
| VInt z => Some (inject_Z z)
| VFloat q => Some q
| VStr s => float_of_str s
| _ => None
end.

(** [int(x)], [None] standing for the exception; a float is truncated
towards zero. *)
Definition py_int (v : value) : option Z :=
match v with
| VBool b => Some (if b then 1%Z else 0%Z)
| VInt z => Some z
| VFloat q => Some (Z.quot (Qnum q) (Zpos (Qden q)))
| VStr s => int_of_str s
| _ => None
end.

(** [v.strip()]: only a string has the method. *)
Definition strip_value (v : value) : result string :=
match v with
| VStr s => Ok (strip s)
| _ => Raise (AttributeError "object has no attribute 'strip'")
end.

(** [s.replace(a, b)] for single characters. *)
Definition replace_char (a b : ascii) (s : string) : string :=
str (map (fun c => if Ascii.eqb c a then b else c) (chars s)).

End PyBuiltins.

(** ** The catalog store and the configuration ([vendor_catalog.py]) *)

Module Catalog.

(** The [map_by] selection. *)
Inductive map_by_sel := Supplierinfo | DefaultCode | BarcodeKey.

(** A [res.partner]. *)
Record partner := { p_id : nat; display_name : string }.

(** A [vendor.catalog.config] record. *)
Record config := {
map_by : map_by_sel;
vendor_id : option partner;
default_categ_id : option nat;
publish_on_website : bool;
website_id : option nat;
batch_commit : Z
}.

(** A [product.supplierinfo] row, with the columns the engine uses. *)
Record supplierinfo := {
partner_id : nat;
product_tmpl_id : nat;
product_code : string;
x_vendor_stock_info : Z
}.

(** A [product.image] row. *)
Record product_image := {
img_tmpl : nat;
image_1920 : string;
img_name : value;
sequence : Z;
x_vendor_image : bool;
x_vendor_image_url : string;
x_vendor_name : string
}.

(** A [product.public.category] row. *)
Record public_category := {
pc_name : string;
pc_parent : option nat;
pc_website : option nat
}.

(** The tables.  A record's id is its position in its table; rows of
[product.template], [product.product], [product.image] and the
category tables are only ever added by the engine, and an unlinked
[product.supplierinfo] row leaves [None] in its place. *)
Record store := {
templates : list (gmap string value);
variants : list (nat * gmap string value);
links : list (option supplierinfo);
images : list product_image;
categories : list value;
pubcats : list public_category;
brands : list value
}.

Definition set_templates f (st : store) : store :=
{| templates := f (templates st); variants := variants st; links := links st;
images := images st; categories := categories st; pubcats := pubcats st;
brands := brands st |}.
Definition set_variants f (st : store) : store :=
{| templates := templates st; variants := f (variants st); links := links st;
images := images st; categories := categories st; pubcats := pubcats st;
brands := brands st |}.
Definition set_links f (st : store) : store :=
{| templates := templates st; variants := variants st; links := f (links st);
images := images st; categories := categories st; pubcats := pubcats st;
brands := brands st |}.
Definition set_images f (st : store) : store :=
{| templates := templates st; variants := variants st; links := links st;
images := f (images st); categories := categories st; pubcats := pubcats st;
brands := brands st |}.
Definition set_categories f (st : store) : store :=
{| templates := templates st; variants := variants st; links := links st;
images := images st; categories := f (categories st); pubcats := pubcats st;
brands := brands st |}.
Definition set_pubcats f (st : store) : store :=
{| templates := templates st; variants := variants st; links := links st;
images := images st; categories := categories st; pubcats := f (pubcats st);
brands := brands st |}.
Definition set_brands f (st : store) : store :=
{| templates := templates st; variants := variants st; links := links st;
images := images st; categories := categories st; pubcats := pubcats st;
brands := f (brands st) |}.

Definition empty_store : store :=
{| templates := []; variants := []; links := []; images := [];
categories := []; pubcats := []; brands := [] |}.

(** [search(dom, limit=1)]: position of the first row satisfying [p]. *)
Fixpoint find_index {A} (p : A -> bool) (l : list A) : option nat :=
match l with
| [] => None
| x :: tl => if p x then Some 0 else option_map S (find_index p tl)
end.

(** [search(dom)]: positions of all rows satisfying [p], in order. *)
Fixpoint find_indices {A} (p : A -> bool) (l : list A) : list nat :=
match l with
| [] => []
| x :: tl => (if p x then [0] else []) ++ map S (find_indices p tl)
end.

(** A domain on [product.supplierinfo] holds of a live row only. *)
Definition live (p : supplierinfo -> bool) (r : option supplierinfo) : bool :=
match r with Some l => p l | None => false end.

(** [(field, '=', s)] on a template, for a non-empty string [s]. *)
Definition field_is (field s : string) (t : gmap string value) : bool :=
bool_decide (t !! field = Some (VStr s)).

(** [tmpl.write(vals)]: the keys of [vals] replace the record's. *)
Definition write_fields (vals : gmap string value) (t : gmap string value)
: gmap string value := vals ∪ t.

Definition write_template (i : nat) (vals : gmap string value) (st : store) : store :=
set_templates (alter (write_fields vals) i) st.

(** [ProductT.create(vals)]: the new template and, with it, its first
variant. *)
Definition create_template (vals : gmap string value) (st : store) : store * nat :=
let id := length (templates st) in
(set_variants (fun vs => vs ++ [(id, ∅)])
(set_templates (fun ts => ts ++ [vals]) st), id).

(** [SupplierInfo.search(dom, limit=1)]: the first live row. *)
Definition search1_link (p : supplierinfo -> bool) (st : store)
: option supplierinfo :=
mjoin (List.find (live p) (links st)).

(** [Product.search([(field, '=', s)], limit=1)] *)
Definition search1_template (field s : string) (st : store) : option nat :=
find_index (field_is field s) (templates st).

(** [_find_template(sku, barcode)] *)
Definition _find_template (cfg : config) (sku barcode : string) (st : store)
: option nat :=
let tmpl :=
match map_by cfg with
| Supplierinfo =>
if nonempty sku then
let tmpl :=
match vendor_id cfg with
| Some v =>
option_map product_tmpl_id
(search1_link (fun l => Nat.eqb (partner_id l) (p_id v)
&& String.eqb (product_code l) sku) st)
| None => None
end in
match tmpl with
| Some t => Some t
| None =>
option_map product_tmpl_id
(search1_link (fun l => String.eqb (product_code l) sku) st)
end
else None
| _ => None
end in
let tmpl :=
match tmpl with
| Some t => Some t
| None => if nonempty sku then search1_template "default_code" sku st
else None
end in
match tmpl with
| Some t => Some t
| None => if nonempty barcode then search1_template "barcode" barcode st
else None
end.

End Catalog.
Export Catalog.

(** ** The base upsert ([vendor_catalog.py]) *)

Module Base.
Section WithWorld.
Context `{World}.
Variable cfg : config.

Local Abbreviation M := (Eff.M (S:=store)).
Local Abbreviation ret := (Eff.ret (S:=store)).
Local Abbreviation modify := (Eff.modify (S:=store)).
Local Abbreviation gets := (Eff.gets (S:=store)).
Local Abbreviation raise := (Eff.raise (S:=store)).
Local Abbreviation lift := (Eff.lift (S:=store)).

(** [_looks_like_image(b)]: at least twelve bytes and a JPEG, PNG or
RIFF signature. *)
Definition _looks_like_image (b : string) : bool :=
Nat.leb 12 (String.length b)
&& (String.prefix (String "255" (String "216" "")) b
|| String.prefix
(String "137" (String "P" (String "N" (String "G"
(String "013" (String "010" (String "026" (String "010" "")))))))) b
|| String.prefix "RIFF" b).

(** [_download_first_ok(url)]: nothing without [requests] or a URL. *)
Definition _download_first_ok (url : value) : option string :=
if requests_available && truthy url then
match url with
| VStr u => download_first_ok u
| _ => None
end
else None.

(** [_robust_float(x)] *)
Definition _robust_float (x : value) : option Q :=
match x with
| VNone => None
| _ => Some (default 0%Q (py_float x))
end.

(** The supplier-link step of [_upsert_product], on the link table:
[si_new], [si_others], the reassignment or the deletions, then the
write or the creation of the vendor's row. *)
Definition unlink (ids : list nat) (ls : list (option supplierinfo))
: list (option supplierinfo) :=
fold_right (fun i acc => <[i := None]> acc) ls ids.

Definition reconcile_links (v : partner) (sku : string) (tmpl : nat)
(stock : Z) (ls : list (option supplierinfo))
: list (option supplierinfo) :=
let si_new :=
find_index (live (fun l => Nat.eqb (partner_id l) (p_id v)
&& Nat.eqb (product_tmpl_id l) tmpl)) ls in
let si_others :=
find_indices (live (fun l => Nat.eqb (product_tmpl_id l) tmpl
&& String.eqb (product_code l) sku
&& negb (Nat.eqb (partner_id l) (p_id v)))) ls in
let '(si_new, ls) :=
match si_new, si_others with
| None, first :: rest =>
(Some first,
unlink rest
(alter (option_map (fun l =>
{| partner_id := p_id v;
product_tmpl_id := product_tmpl_id l;
product_code := product_code l;
x_vendor_stock_info := x_vendor_stock_info l |}))
first ls))
| _, _ => (si_new, unlink si_others ls)
end in
let si_vals := {| partner_id := p_id v; product_tmpl_id := tmpl;
product_code := sku; x_vendor_stock_info := stock |} in
match si_new with
| Some i => <[i := Some si_vals]> ls
| None => ls ++ [Some si_vals]
end.

(** The category of the values: an existing [product.category] of that
name, else the default one, else a new one. *)
Definition resolve_categ (categ_name : value) : M (option nat) :=
if truthy categ_name then
cat ← gets (fun st => find_index (fun c => bool_decide (c = categ_name))
(categories st));
match cat, default_categ_id cfg with
| Some c, _ => ret (Some c)
| None, Some d => ret (Some d)
| None, None =>
id ← gets (fun st => length (categories st));
_ ← modify (set_categories (fun cs => cs ++ [categ_name]));
ret (Some id)
end
else ret (default_categ_id cfg).

Definition set_if (b : bool) (k : string) (v : value)
(vals : gmap string value) : gmap string value :=
if b then <[k := v]> vals else vals.

(** The dictionary [vals] up to the vendor fields. *)
Definition base_vals (item : gmap string value) (name : value)
(sku barcode : string) (cost : option Q) (categ : option nat)
(tmpl barcode_owner : option nat) : gmap string value :=
let vals : gmap string value :=
<["purchase_ok" := VBool true]> (<["sale_ok" := VBool true]> {["name" := name]}) in
let desc_html := get item "description_ecommerce" in
let vals := set_if (truthy desc_html && pt_has "description_ecommerce")
"description_ecommerce" desc_html vals in
let vals := match cost with
| Some c => <["standard_price" := VFloat c]> vals
| None => vals
end in
let _w := default 0%Q
(float_of_str (replace_char "," "."
(py_str (py_or (get item "weight") (VInt 0))))) in
let vals :=
if negb (Qle_bool _w 0) then
if pt_has "weight_0" then <["weight_0" := VFloat _w]> vals
else if pt_has "weight" then <["weight" := VFloat _w]> vals
else vals
else vals in
let vals := match categ with
| Some c => <["categ_id" := VInt (Z.of_nat c)]> vals
| None => vals
end in
let vals := set_if (nonempty sku) "default_code" (VStr sku) vals in
let barcode_to_set :=
nonempty barcode
&& match barcode_owner with
| None => true
| Some e => match tmpl with Some t => Nat.eqb e t | None => false end
end in
let vals := set_if barcode_to_set "barcode" (VStr barcode) vals in
let desc_html :=
py_or (py_or (py_or (get item "description_ecommerce")
(get item "website_description"))
(get item "description"))
(get item "description_sale") in
set_if (truthy desc_html && pt_has "description_ecommerce")
"description_ecommerce" desc_html vals.

(** [max(int(... or 0), 0)], zero when [int] raises. *)
Definition vendor_stock_of (item : gmap string value) : Z :=
Z.max (default 0%Z
(py_int (py_or (py_or (py_or (get item "vendor_stock") (get item "stock"))
(get item "stock_total"))
(VInt 0))))
0.

Definition vendor_display : value :=
match vendor_id cfg with
| Some v => VStr (display_name v)
| None => VNone
end.

(** [tmpl.website_ids = [(4, id)]]: the id joins the ones present. *)
Definition add_id (id : nat) (v : option value) : value :=
match v with
| Some (VIds l) => if bool_decide (id ∈ l) then VIds l else VIds (l ++ [id])
| _ => VIds [id]
end.

(** The head of [_upsert_product]: the keys of the item and the two
validations. *)
Definition prepare (item : gmap string value) : result (value * string * string) :=
let name := py_or (get item "name") (get item "title") in
match strip_value (py_or (py_or (get item "sku") (get item "default_code")) (VStr "")) with
| Raise e => Raise e
| Ok sku =>
match strip_value (py_or (get item "barcode") (VStr "")) with
| Raise e => Raise e
| Ok barcode =>
if negb (truthy name) then Raise (UserError "Falta 'name' en el item")
else if negb (nonempty sku || nonempty barcode)
then Raise (UserError "Falta SKU/default_code o barcode en el item")
else Ok (name, sku, barcode)
end
end.

(** [cost], from [cost] or else from [price]. *)
Definition cost_of (item : gmap string value) : option Q :=
match _robust_float (get item "cost") with
| Some c => Some c
| None => _robust_float (get item "price")
end.

(** The dictionary [vals] as it is written. *)
Definition build_vals (item : gmap string value) (name : value)
(sku barcode : string) (tmpl : option nat) : M (gmap string value) :=
categ ← resolve_categ (get item "category");
barcode_owner ← gets (search1_template "barcode" barcode);
let vals := base_vals item name sku barcode (cost_of item) categ tmpl barcode_owner in
let vals := set_if (pt_has "x_vendor_stock") "x_vendor_stock"
(VInt (vendor_stock_of item)) vals in
if pt_has "x_vendor_name" then
vname ← lift (strip_value
(py_or (py_or (get item "vendor_name") vendor_display) (VStr "")));
ret (<["x_vendor_name" := py_or (VStr vname) (VBool false)]> vals)
else ret vals.

(** [tmpl.write(vals)] or [ProductT.create(vals)]. *)
Definition write_or_create (tmpl : option nat) (vals : gmap string value)
: M (nat * bool) :=
match tmpl with
| Some t => _ ← modify (write_template t vals); ret (t, false)
| None => fun st => let '(st', t) := create_template vals st in (st', Ok (t, true))
end.

(** The supplier-link step. *)
Definition supplier_step (item : gmap string value) (sku : string) (tmpl : nat)
: M unit :=
match vendor_id cfg with
| Some v =>
if nonempty sku then
modify (set_links
(reconcile_links v sku tmpl
(if pt_has "x_vendor_stock" then vendor_stock_of item else 0%Z)))
else ret tt
| None => ret tt
end.

(** The main image: downloaded, checked by its first bytes, and skipped
when the image field refuses it. *)
Definition main_image_step (item : gmap string value) (tmpl : nat) : M unit :=
let image_url := get item "image_url" in
if truthy image_url && requests_available then
match _download_first_ok image_url with
| Some content =>
if nonempty content && _looks_like_image content
&& image_accepts (b64encode content)
then modify (write_template tmpl {["image_1920" := VStr (b64encode content)]})
else ret tt
| None => ret tt
end
else ret tt.

(** Publication on the sales channel. *)
Definition publish_step (tmpl : nat) : M unit :=
if publish_on_website cfg then
_ ← (if pt_has "website_published"
then modify (write_template tmpl {["website_published" := VBool true]})
else ret tt);
match website_id cfg with
| Some w =>
if pt_has "website_ids"
then modify (set_templates
(alter (fun t => <["website_ids" := add_id w (t !! "website_ids")]> t)
tmpl))
else if pt_has "website_id"
then modify (write_template tmpl {["website_id" := VInt (Z.of_nat w)]})
else ret tt
| None => ret tt
end
else ret tt.

(** [_upsert_product(item)] of [VendorCatalogConfig].  Its last step,
[tmpl.vc_apply_gallery_urls], calls a method the add-on defines nowhere:
the [AttributeError] is logged and dropped by the surrounding [try], so
the step leaves the store as it is. *)
Definition _upsert_product (item : gmap string value) : M (nat * bool) :=
'(name, sku, barcode) ← lift (prepare item);
tmpl ← gets (_find_template cfg sku barcode);
vals ← build_vals item name sku barcode tmpl;
res ← write_or_create tmpl vals;
_ ← supplier_step item sku (fst res);
_ ← main_image_step item (fst res);
_ ← publish_step (fst res);
ret res.

End WithWorld.
End Base.

(** ** The description overlay ([_brand_notes_patch.py]) *)

Module BrandNotes.
Section WithWorld.
Context `{World}.
Variable cfg : config.
(** [super()._upsert_product] *)
Variable super_upsert : gmap string value -> Eff.M (S:=store) (nat * bool).

Local Abbreviation M := (Eff.M (S:=store)).
Local Abbreviation ret := (Eff.ret (S:=store)).
Local Abbreviation modify := (Eff.modify (S:=store)).
Local Abbreviation gets := (Eff.gets (S:=store)).
Local Abbreviation lift := (Eff.lift (S:=store)).

(** [_as_html(text)] *)
Definition _as_html (text : value) : value :=
if truthy text then
match as_html_text (py_str text) with
| Some h => VStr h
| None => VBool false
end
else VBool false.

(** The fields cleared on the template and on its variants. *)
Definition legacy_fields : list string :=
["description"; "description_sale"; "website_short_description"].

Definition clear_legacy (has : string -> bool) (vals : gmap string value)
: gmap string value :=
fold_left (fun acc f => Base.set_if (has f) f (VBool false) acc)
legacy_fields vals.

(** [vals_t] and [vals_p] before the brand. *)
Definition description_vals (has : string -> bool) (item : gmap string value)
: gmap string value :=
let web_html := get item "website_description" in
let web_html := if truthy web_html then web_html
else _as_html (py_or (get item "description")
(get item "description_sale")) in
clear_legacy has
(Base.set_if (has "website_description") "website_description"
(py_or web_html (VBool false)) ∅).

(** The brand: found by name or created, in whichever brand model the
environment has. *)
Definition brand_vals (item : gmap string value) (vals_t : gmap string value)
: M (gmap string value) :=
let brand_name := py_or (py_or (get item "brand") (get item "product_brand"))
(get item "manufacturer") in
let brand_field := if pt_has "product_brand_id" then Some "product_brand_id"
else if pt_has "brand_id" then Some "brand_id" else None in
match brand_field with
| Some bf =>
if truthy brand_name && (env_has "product.brand" || env_has "brand.brand")
then
found ← gets (fun st => find_index (fun b => bool_decide (b = brand_name))
(brands st));
id ← match found with
| Some b => ret b
| None => id ← gets (fun st => length (brands st));
_ ← modify (set_brands (fun bs => bs ++ [brand_name]));
ret id
end;
ret (<[bf := VInt (Z.of_nat id)]> vals_t)
else ret vals_t
| None => ret vals_t
end.

(** [tmpl.product_variant_ids.sudo().write(vals_p)] *)
Definition write_variants (tmpl : nat) (vals_p : gmap string value) (st : store)
: store :=
set_variants
(map (fun v : nat * gmap string value =>
if Nat.eqb (fst v) tmpl then (fst v, write_fields vals_p (snd v)) else v))
st.

(** What [_upsert_product] of [VendorCatalogConfigBrandNotes] does once
[super()] has returned [res]. *)
Definition after_upsert (item : gmap string value) (res : nat * bool)
: M (nat * bool) :=
sku ← lift (strip_value
(py_or (py_or (get item "sku") (get item "default_code")) (VStr "")));
barcode ← lift (strip_value (py_or (get item "barcode") (VStr "")));
tmpl ← gets (_find_template cfg sku barcode);
match tmpl with
| None => ret res
| Some tmpl =>
let vals_p := description_vals pp_has item in
vals_t ← brand_vals item (description_vals pt_has item);
_ ← (if bool_decide (vals_t = ∅) then ret tt
else modify (write_template tmpl vals_t));
_ ← (if bool_decide (vals_p = ∅) then ret tt
else modify (write_variants tmpl vals_p));
ret res
end.

(** [_upsert_product(item)] of [VendorCatalogConfigBrandNotes]. *)
Definition _upsert_product (item : gmap string value) : M (nat * bool) :=
res ← super_upsert item; after_upsert item res.

End WithWorld.
End BrandNotes.

(** ** The gallery overlay ([_gallery_patch.py]) *)

Module Gallery.
Section WithWorld.
Context `{World}.
Variable cfg : config.
Variable super_upsert : gmap string value -> Eff.M (S:=store) (nat * bool).

Local Abbreviation M := (Eff.M (S:=store)).
Local Abbreviation ret := (Eff.ret (S:=store)).
Local Abbreviation modify := (Eff.modify (S:=store)).
Local Abbreviation gets := (Eff.gets (S:=store)).
Local Abbreviation raise := (Eff.raise (S:=store)).
Local Abbreviation lift := (Eff.lift (S:=store)).

(** [re.split(r"[|\n;,]+", s)], empty pieces included. *)
Definition is_delim (c : ascii) : bool :=
Ascii.eqb c "|" || Ascii.eqb c "010" || Ascii.eqb c ";" || Ascii.eqb c ",".

Fixpoint split_delims (cur : list ascii) (l : list ascii) : list (list ascii) :=
match l with
| [] => [cur]
| c :: tl => if is_delim c then cur :: split_delims [] tl
else split_delims (cur ++ [c]) tl
end.

(** [_to_list_images(v)] *)
Definition _to_list_images (v : value) : list string :=
if negb (truthy v) then []
else match v with
| VList l => map strip (filter (fun x => nonempty x = true) l)
| _ => filter (fun p => nonempty p = true)
(map (fun p => str (strip_chars p))
(split_delims [] (chars (py_str v))))
end.

(** The nine numbered keys of index [i]. *)
Definition numbered_keys (i : nat) : list string :=
let n := str_of_nat i in
map (fun p => (p ++ n)%string)
["image"; "image_"; "img"; "img_"; "imagen"; "imagen_"; "foto"; "foto_";
"image_url_"].

(** Step 1: the URLs the feed gives explicitly. *)
Definition explicit_urls (item : gmap string value) : list string :=
flat_map (fun k => _to_list_images (get item k))
["images"; "extra_images"; "gallery"; "image_urls"]
++ flat_map (fun i =>
flat_map (fun k => let v := get item k in
if truthy v then [strip (py_str v)] else [])
(numbered_keys i))
(GalleryUrls.range 2 21).

(** Step 3: duplicates and the main URL removed. *)
Fixpoint clean_urls (main : string) (seen : list string) (urls : list string)
: list string :=
match urls with
| [] => []
| u :: tl =>
let u := strip u in
if negb (nonempty u) || String.eqb u main || bool_decide (u ∈ seen)
then clean_urls main seen tl
else u :: clean_urls main (u :: seen) tl
end.

(** Steps 1 to 3: the candidate list [clean]. *)
Definition gallery_candidates (item : gmap string value) : result (list string) :=
match strip_value (py_or (get item "image_url") (VStr "")) with
| Raise e => Raise e
| Ok main =>
let urls := explicit_urls item in
let urls := match urls with
| [] => if nonempty main
then GalleryUrls._derive_numbered_urls main 8
else []
| _ => urls
end in
Ok (clean_urls main [] urls)
end.

(** [max(l or [0])] *)
Definition max_or_zero (l : list Z) : Z :=
match l with
| [] => 0%Z
| x :: tl => fold_left Z.max tl x
end.

Definition undecodable_msg : string :=
"No se pudo descifrar este archivo como un archivo de imagen.".

(** [Image.create(vals)]; the image field refuses a payload it cannot
decode. *)
Definition create_image (im : product_image) : M unit :=
if image_accepts (image_1920 im)
then modify (set_images (fun ims => ims ++ [im]))
else raise (UserError undecodable_msg).

(** The download loop over [enumerate(clean, start=1)]. *)
Fixpoint add_images (tmpl : nat) (name : value) (vname : string)
(existing : list string) (seq_base : Z) (idx : nat) (clean : list string)
: M unit :=
match clean with
| [] => ret tt
| url :: tl =>
_ ← (if bool_decide (url ∈ existing) then ret tt
else match Base._download_first_ok (VStr url) with
| Some content =>
if nonempty content then
create_image
{| img_tmpl := tmpl; image_1920 := content;
img_name := name;
sequence := (seq_base + Z.of_nat idx)%Z;
x_vendor_image := true; x_vendor_image_url := url;
x_vendor_name := vname |}
else ret tt
| None => ret tt
end);
add_images tmpl name vname existing seq_base (S idx) tl
end.

(** The vendor-origin URLs already stored on the record. *)
Definition existing_urls (tmpl : nat) (st : store) : list string :=
map x_vendor_image_url
(filter (fun im => img_tmpl im = tmpl /\ x_vendor_image im = true
/\ nonempty (x_vendor_image_url im) = true)
(images st)).

(** What [_upsert_product] of [VendorCatalogConfigGallery] does once
[super()] has returned [res]. *)
Definition after_upsert (item : gmap string value) (res : nat * bool)
: M (nat * bool) :=
sku ← lift (strip_value
(py_or (py_or (get item "sku") (get item "default_code")) (VStr "")));
barcode ← lift (strip_value (py_or (get item "barcode") (VStr "")));
tmpl ← gets (_find_template cfg sku barcode);
match tmpl with
| None => ret res
| Some tmpl =>
clean ← lift (gallery_candidates item);
match clean with
| [] => ret res
| _ =>
existing ← gets (existing_urls tmpl);
vname ← lift (strip_value
(py_or (py_or (get item "vendor_name") (Base.vendor_display cfg))
(VStr "")));
let vname := or_str vname "Proveedor" in
seq_base ← gets (fun st =>
(max_or_zero
(map sequence (filter (fun im => img_tmpl im = tmpl) (images st)))
+ 10)%Z);
name ← gets (fun st =>
py_or (py_or (default VNone (t ← templates st !! tmpl; t !! "name"))
(VStr sku))
(VStr barcode));
_ ← add_images tmpl name vname existing seq_base 1 clean;
ret res
end
end.

(** [_upsert_product(item)] of [VendorCatalogConfigGallery]. *)
Definition _upsert_product (item : gmap string value) : M (nat * bool) :=
res ← super_upsert item; after_upsert item res.

End WithWorld.
End Gallery.

(** ** The public-category overlay ([_ecom_public_category_patch.py]) *)

Module Ecom.
Section WithWorld.
Context `{World}.
Variable cfg : config.
Variable super_upsert : gmap string value -> Eff.M (S:=store) (nat * bool).

Local Abbreviation M := (Eff.M (S:=store)).
Local Abbreviation ret := (Eff.ret (S:=store)).
Local Abbreviation modify := (Eff.modify (S:=store)).
Local Abbreviation gets := (Eff.gets (S:=store)).

(** The channel scope of the search domain and of the created node. *)
Definition scope : option nat :=
if pc_has "website_id" then website_id cfg else None.

(** One step of the tree walk: the node of that name under [parent],
created when absent. *)
Definition get_or_create_node (parent : option nat) (name : string) : M nat :=
found ← gets (fun st =>
find_index (fun c => String.eqb (pc_name c) name
&& bool_decide (pc_parent c = parent)
&& match scope with
| Some w => bool_decide (pc_website c = Some w)
| None => true
end)
(pubcats st));
match found with
| Some c => ret c
| None =>
id ← gets (fun st => length (pubcats st));
_ ← modify (set_pubcats (fun cs =>
cs ++ [{| pc_name := name; pc_parent := parent; pc_website := scope |}]));
ret id
end.

Fixpoint walk (parent : option nat) (names : list string) : M (option nat) :=
match names with
| [] => ret parent
| name :: tl => c ← get_or_create_node parent name; walk (Some c) tl
end.

(** [_vc_get_or_create_public_category(path)] *)
Definition _vc_get_or_create_public_category (path : value) : M (option nat) :=
walk None (EcomPath._smart_split_ecom_path
(if truthy path then py_str path else "")).

Fixpoint resolve_all (values : list value) : M (list nat) :=
match values with
| [] => ret []
| v :: tl =>
cat ← _vc_get_or_create_public_category v;
ids ← resolve_all tl;
ret (match cat with Some c => c :: ids | None => ids end)
end.

(** [tmpl.categ_id and tmpl.categ_id.display_name] *)
Definition categ_display (tmpl : nat) (st : store) : value :=
match t ← templates st !! tmpl; t !! "categ_id" with
| Some (VInt c) => default VNone (categories st !! Z.to_nat c)
| _ => VNone
end.

(** What [_upsert_product] of [VendorCatalogEcomPublicCategoryPatch] does
once [super()] has returned [res]. *)
Definition after_upsert (item : gmap string value) (res : nat * bool)
: M (nat * bool) :=
let tmpl := fst res in
if negb (pt_has "public_categ_ids") then ret res
else
own ← gets (categ_display tmpl);
let ecom_val :=
py_or (py_or (py_or (py_or (py_or (get item "public_category")
(get item "public_categories"))
(get item "ecom_category"))
(get item "categories_ecommerce"))
(get item "category"))
own in
if negb (truthy ecom_val) then ret res
else
let values := match ecom_val with
| VList l => map VStr l
| _ => [ecom_val]
end in
ids ← resolve_all values;
_ ← (match ids with
| [] => ret tt
| _ => modify (write_template tmpl {["public_categ_ids" := VIds ids]})
end);
ret res.

(** [_upsert_product(item)] of [VendorCatalogEcomPublicCategoryPatch]. *)
Definition _upsert_product (item : gmap string value) : M (nat * bool) :=
res ← super_upsert item; after_upsert item res.

End WithWorld.
End Ecom.

(** ** The whole per-item operation *)

Module Engine.
Section WithWorld.
Context `{World}.
Variable cfg : config.

(** Modelled from the spec: the order in which the overlays wrap the base
upsert.  [models/__init__.py], which fixes it, is not among the
sources; the design notes give base upsert, then description and
brand, then gallery, then category. *)
Definition _upsert_product : gmap string value -> Eff.M (S:=store) (nat * bool) :=
Ecom._upsert_product cfg
(Gallery._upsert_product cfg
(BrandNotes._upsert_product cfg (Base._upsert_product cfg))).

End WithWorld.
End Engine.

(** ** The run loop ([action_run_import] of [vendor_catalog.py]) *)

Module Run.
Section Loop.
Context `{World}.
(** [self._upsert_product], whatever the overlays make of it. *)
Variable upsert : gmap string value -> Eff.M (S:=store) (nat * bool).

Record counters := {
created : nat;
updated : nat;
skipped : nat;
details : list string
}.

(** The best-effort key of the detail line. *)
Definition code_of (raw : gmap string value) : value :=
py_or (py_or (py_or (get raw "sku") (get raw "default_code")) (get raw "barcode"))
(VStr "N/A").

(** [f"ERROR {code}: {e}"] *)
Definition detail_line (raw : gmap string value) (e : exn) : string :=
("ERROR " ++ py_str (code_of raw) ++ ": " ++ exn_msg e)%string.

(** One turn of the [for] loop: the [try] around the upsert.  The commit
every [batch_commit] items changes no table and is left out. *)
Definition step (acc : store * counters) (raw : gmap string value)
: store * counters :=
let '(st, c) := acc in
match upsert raw st with
| (st', Ok (_, was_created)) =>
(st', if was_created
then {| created := S (created c); updated := updated c;
skipped := skipped c; details := details c |}
else {| created := created c; updated := S (updated c);
skipped := skipped c; details := details c |})
| (st', Raise e) =>
(st', {| created := created c; updated := updated c;
skipped := S (skipped c);
details := details c ++ [detail_line raw e] |})
end.

Definition loop (items : list (gmap string value)) (st : store)
: store * counters :=
fold_left step items
(st, {| created := 0; updated := 0; skipped := 0; details := [] |}).

(** [msg_line] *)
Definition msg_line (total : nat) (c : counters) : string :=
("Total: " ++ str_of_nat total ++ " | Creados: " ++ str_of_nat (created c)
++ " | Actualizados: " ++ str_of_nat (updated c)
++ " | Fallidos: " ++ str_of_nat (skipped c))%string.

(** ["\n".join(lines)] *)
Definition join_lines (lines : list string) : string :=
match lines with
| [] => ""
| l :: tl => fold_left (fun acc x => (acc ++ String "010" x)%string) tl l
end.

(** [result_text] *)
Definition result_text (total : nat) (c : counters) : string :=
match details c with
| [] => msg_line total c
| ds => join_lines (msg_line total c :: firstn 200 ds)
end.

(** What a run leaves behind: [last_result], the log row and the tone
of the notification. *)
Record run_output := {
last_result : string;
log_total : nat;
log_created : nat;
log_updated : nat;
log_skipped : nat;
log_notes : string;
notification_type : string
}.

(** [action_run_import] once the feed has been fetched. *)
Definition action_run_import (items : list (gmap string value)) (st : store)
: store * run_output :=
let '(st', c) := loop items st in
let total := length items in
(st', {| last_result := result_text total c;
log_total := total; log_created := created c;
log_updated := updated c; log_skipped := skipped c;
log_notes := msg_line total c;
notification_type := if Nat.eqb (skipped c) 0 then "success"
else "warning" |}).

End Loop.
End Run.

(** ** Regular expressions, as far as the reconciler uses them *)

Module Re.

Inductive re :=
| Void
| Eps
| Chr (p : ascii -> bool)
| Seq (a b : re)
| Alt (a b : re)
| Star (a : re).

Fixpoint nullable (r : re) : bool :=
match r with
| Void => false
| Eps => true
| Chr _ => false
| Seq a b => nullable a && nullable b
| Alt a b => nullable a || nullable b
| Star _ => true
end.

(** Brzozowski derivative. *)
Fixpoint deriv (c : ascii) (r : re) : re :=
match r with
| Void => Void
| Eps => Void
| Chr p => if p c then Eps else Void
| Seq a b => if nullable a then Alt (Seq (deriv c a) b) (deriv c b)
else Seq (deriv c a) b
| Alt a b => Alt (deriv c a) (deriv c b)
| Star a => Seq (deriv c a) (Star a)
end.

Definition fullmatch (r : re) (s : list ascii) : bool :=
nullable (fold_left (fun r c => deriv c r) s r).

Definition any : re := Star (Chr (fun _ => true)).

(** [pattern.search(s)] as a truth value: some substring matches. *)
Definition search (r : re) (s : string) : bool :=
fullmatch (Seq any (Seq r any)) (chars s).

Definition plus (r : re) : re := Seq r (Star r).

(** [c.lower()] for code points below 256. *)
Definition lower_latin1 (c : ascii) : ascii :=
let n := nat_of_ascii c in
if (Nat.leb 65 n && Nat.leb n 90)
|| (Nat.leb 192 n && Nat.leb n 222 && negb (Nat.eqb n 215))
then ascii_of_nat (n + 32) else c.

(** A literal, under [re.I] or not. *)
Fixpoint lit (ci : bool) (s : list ascii) : re :=
match s with
| [] => Eps
| x :: tl =>
Seq (Chr (fun c => if ci then Ascii.eqb (lower_latin1 c) (lower_latin1 x)
else Ascii.eqb c x))
(lit ci tl)
end.

(** [\s] *)
Definition ws : re := Chr is_space.

(** [[A-Z0-9]] under [re.I] *)
Definition alnum_ci : re :=
Chr (fun c => is_digit c
|| let n := nat_of_ascii (lower_latin1 c) in
Nat.leb 97 n && Nat.leb n 122).

End Re.

(** ** The statistics reconciler ([_import_stats_patch.py]) *)

Module Stats.
Section WithWorld.
Context `{World}.
Variable cfg : config.
Variable upsert : gmap string value -> Eff.M (S:=store) (nat * bool).

(** [(cfg.map_by or 'sku').strip().lower()] *)
Definition map_by_name : string :=
match map_by cfg with
| Supplierinfo => "supplierinfo"
| DefaultCode => "default_code"
| BarcodeKey => "barcode"
end.

(** [field_map.get(map_by, 'default_code')] *)
Definition pt_field : string :=
if String.eqb map_by_name "barcode" then "barcode" else "default_code".

(** [_key_of(item, map_by)] *)
Definition _key_of (item : gmap string value) : value :=
if String.eqb map_by_name "barcode" then
py_or (py_or (py_or (get item "barcode") (get item "sku"))
(get item "vendor_code"))
(get item "default_code")
else
py_or (py_or (py_or (get item "sku") (get item "vendor_code"))
(get item "default_code"))
(get item "barcode").

(** The distinct truthy keys of the feed, in feed order. *)
Definition feed_keys (items : list (gmap string value)) : list value :=
fold_left (fun keys it =>
let k := _key_of it in
if truthy k && negb (bool_decide (k ∈ keys)) then keys ++ [k]
else keys)
items [].

(** [set(PT.search([(pt_field, 'in', keys)]).mapped(pt_field))] *)
Definition snapshot (keys : list value) (st : store) : list value :=
match keys with
| [] => []
| _ => omap (fun t : gmap string value =>
match t !! pt_field with
| Some v => if bool_decide (v ∈ keys) then Some v else None
| None => None
end)
(templates st)
end.

(** [s.rstrip("\n")] *)
Fixpoint lstrip_nl (l : list ascii) : list ascii :=
match l with
| c :: tl => if Ascii.eqb c "010" then lstrip_nl tl else l
| [] => []
end.

Definition rstrip_nl (s : list ascii) : list ascii := rev (lstrip_nl (rev s)).

(** A line boundary of [str.splitlines], for code points below 256. *)
Definition is_linebreak (c : ascii) : bool :=
let n := nat_of_ascii c in
(Nat.leb 10 n && Nat.leb n 13) || (Nat.leb 28 n && Nat.leb n 30)
|| Nat.eqb n 133.

(** [s.splitlines()] *)
Fixpoint splitlines_from (cur : list ascii) (l : list ascii) : list string :=
match l with
| [] => match cur with [] => [] | _ => [str cur] end
| c :: tl =>
if is_linebreak c then
str cur ::
match c, tl with
| "013"%char, "010"%char :: tl' => splitlines_from [] tl'
| _, _ => splitlines_from [] tl
end
else splitlines_from (cur ++ [c]) tl
end.

Definition splitlines (s : string) : list string := splitlines_from [] (chars s).

Definition pat_soft : Re.re :=
Re.lit true (chars "No se pudo descifrar este archivo como un archivo de imagen.").

(** [Galería\s+saltada\s+[A-Z0-9]+] under [re.I]; the accented letter is
code point 237. *)
Definition pat_skip : Re.re :=
Re.Seq (Re.lit true (chars "Galer" ++ ["237"%char; "a"%char]))
(Re.Seq (Re.plus Re.ws)
(Re.Seq (Re.lit true (chars "saltada"))
(Re.Seq (Re.plus Re.ws) (Re.plus Re.alnum_ci)))).

(** ["ERROR " in ln and pat_soft.search(ln)] *)
Definition is_soft (ln : string) : bool :=
Re.search (Re.lit false (chars "ERROR ")) ln && Re.search pat_soft ln.

Definition is_skip (ln : string) : bool := Re.search pat_skip ln.

Definition count (p : string -> bool) (l : list string) : nat :=
length (filter (fun x => p x = true) l).

(** The pieces of the summary pattern. *)
Fixpoint expect (lit : list ascii) (s : list ascii) : option (list ascii) :=
match lit, s with
| [], _ => Some s
| x :: lt, c :: tl => if Ascii.eqb x c then expect lt tl else None
| _ :: _, [] => None
end.

Fixpoint digits (acc : list ascii) (s : list ascii) : list ascii * list ascii :=
match s with
| c :: tl => if is_digit c then digits (acc ++ [c]) tl else (acc, s)
| [] => (acc, [])
end.

(** [label\s*(\d+)]: the number and what follows it. *)
Definition labelled (label : string) (s : list ascii) : option (nat * list ascii) :=
s ← expect (chars label) s;
let '(d, s) := digits [] (lstrip s) in
match d with
| [] => None
| _ => Some (int_of_digits d, s)
end.

(** [\s*\|\s*] *)
Definition bar (s : list ascii) : option (list ascii) :=
s ← expect ["|"%char] (lstrip s); Some (lstrip s).

(** The summary pattern anchored at the head of [s]. *)
Definition summary_here (s : list ascii) : option (nat * nat * nat * nat) :=
'(t, s) ← labelled "Total:" s;
s ← bar s;
'(c, s) ← labelled "Creados:" s;
s ← bar s;
'(u, s) ← labelled "Actualizados:" s;
s ← bar s;
'(f, _) ← labelled "Fallidos:" s;
Some (t, c, u, f).

(** [re.search(pattern, first)]: the leftmost position where it matches. *)
Fixpoint summary_search (s : list ascii) : option (nat * nat * nat * nat) :=
match summary_here s with
| Some g => Some g
| None => match s with
| [] => None
| _ :: tl => summary_search tl
end
end.

Record stats_output := {
base_output : Run.run_output;
(** [cfg.last_result] after the rewrite *)
rewritten_result : string;
last_no_extra_images : nat
}.

(** The recomputed counts: total, created, updated, failed, no extra
image. *)
Definition recount (keys pre post : list value) (total failed_base soft skip : nat)
: nat * nat * nat * nat * nat :=
let failed_real := failed_base - soft in
let success := total - failed_real in
let created_real :=
match keys with
| [] => 0
| _ => Nat.min success
(length (filter (fun k => (k ∉ pre) /\ (k ∈ post)) keys))
end in
let updated_real := success - created_real in
(* the side counter [stats] handed to the run is read by no one *)
let no_extra := 0 + soft + skip in
(total, created_real, updated_real, failed_real, no_extra).

Definition summary_line (r : nat * nat * nat * nat * nat) : string :=
let '(total, c, u, f, x) := r in
("Total: " ++ str_of_nat total ++ " | Creados: " ++ str_of_nat c
++ " | Actualizados: " ++ str_of_nat u ++ " | Fallidos: " ++ str_of_nat f
++ " | Sin imagen extra: " ++ str_of_nat x)%string.

(** [action_run_import] of [VendorCatalogStatsPatch], for one
configuration; [fetched] is what [_fetch_items()] yields. *)
Definition action_run_import (fetched : result (list (gmap string value)))
(st : store) : store * result stats_output :=
let items := match fetched with Ok l => l | Raise _ => [] end in
let keys := feed_keys items in
let pre_existing := snapshot keys st in
match fetched with
| Raise e => (st, Raise e)
| Ok run_items =>
let '(st', out) := Run.action_run_import upsert run_items st in
let lines := splitlines (str (rstrip_nl (chars (Run.last_result out)))) in
match lines with
| [] => (st', Ok {| base_output := out;
rewritten_result := Run.last_result out;
last_no_extra_images := 0 |})
| first :: tail =>
let soft := count is_soft tail in
let skip := count is_skip tail in
match summary_search (chars first) with
| None =>
let no_extra := 0 + soft + skip in
(st', Ok {| base_output := out;
rewritten_result :=
Run.join_lines
((first ++ " | Sin imagen extra: "
++ str_of_nat no_extra)%string :: tail);
last_no_extra_images := no_extra |})
| Some (total, _, _, failed_base) =>
let post_existing := snapshot keys st' in
let r := recount keys pre_existing post_existing
total failed_base soft skip in
(st', Ok {| base_output := out;
rewritten_result := Run.join_lines (summary_line r :: tail);
last_no_extra_images := snd r |})
end
end
end.

End WithWorld.
End Stats.

(** ** Flat category mapping ([catalog_map_wrapper.py], [infortisa_catalog.py]) *)

Module CategoryMap.
Section WithWorld.
Context `{World}.
(** [_norm_key] of the wrapper and [_mm_norm_key] of the Infortisa
adapter (its last definition), on [str(s)].  Both go through
[unicodedata]; the properties below hold whatever they compute. *)
Variable _norm_key : string -> string.
Variable _mm_norm_key : string -> string.







End WithWorld.
End CategoryMap.

(** ** A concrete world for the worked examples

    Stand-ins that agree with Python on the inputs the examples use: plain
    decimal literals for [float] and [int], a schema with the description
    fields of the target platform and the vendor fields of this add-on, no
    network, an image codec that accepts everything. *)

Module Sample.

(** Digits with an optional sign, surrounded by blanks. *)
Definition int_literal (s : string) : option Z :=
match strip_chars (chars s) with
| "-"%char :: d => if forallb is_digit d && negb (Nat.eqb (length d) 0)
then Some (- Z.of_nat (int_of_digits d))%Z else None
| d => if forallb is_digit d && negb (Nat.eqb (length d) 0)
then Some (Z.of_nat (int_of_digits d)) else None
end.

(** [digits] or [digits.digits], with an optional sign. *)
Definition float_literal (s : string) : option Q :=
let body := strip_chars (chars s) in
let '(neg, body) := match body with
| "-"%char :: b => (true, b)
| b => (false, b)
end in
let '(ip, rest) := Stats.digits [] body in
let q := match rest with
| [] => match ip with
| [] => None
| _ => Some (inject_Z (Z.of_nat (int_of_digits ip)))
end
| "."%char :: fp =>
if forallb is_digit fp && negb (Nat.eqb (length ip + length fp) 0)
then Some (Qmake (Z.of_nat (int_of_digits (ip ++ fp)))
(Pos.of_nat (10 ^ length fp)))
else None
| _ => None
end in
option_map (fun q => if neg then Qopp q else q) q.

Definition schema : list string :=
["name"; "default_code"; "barcode"; "standard_price"; "weight"; "categ_id";
"description"; "description_sale"; "description_ecommerce";
"website_description"; "website_published"; "website_id";
"public_categ_ids"; "x_vendor_stock"; "x_vendor_name"; "image_1920"].

#[export] Instance world : World := {|
float_of_str := float_literal;
int_of_str := int_literal;
str_of_float := fun _ => "0.0";
str_of_list := fun l => String.concat "," l;
requests_available := true;
download_first_ok := fun _ => None;
b64encode := fun b => b;
image_accepts := fun _ => true;
pt_has := fun f => bool_decide (f ∈ schema);
pp_has := fun f => bool_decide (f ∈ schema);
pc_has := fun f => String.eqb f "website_id";
env_has := fun _ => false;
as_html_text := fun t => Some ("<p>" ++ t ++ "</p>")%string;
get_close_matches := fun _ _ => []
|}.

Definition vendor : partner := {| p_id := 7; display_name := "Infortisa" |}.

Definition cfg : config :=
{| map_by := Supplierinfo; vendor_id := Some vendor; default_categ_id := None;
publish_on_website := true; website_id := None; batch_commit := 100 |}.

(** A feed item from a list of pairs. *)
Definition item_of (l : list (string * value)) : gmap string value := list_to_map l.

End Sample.

(** * Theorems *)

#[local] Existing Instance Sample.world.

(** ** Strings *)

Lemma str_chars s : str (chars s) = s.
Proof. apply string_of_list_ascii_of_string. Qed.

Lemma chars_str l : chars (str l) = l.
Proof. apply list_ascii_of_string_of_list_ascii. Qed.

(** Decimal printing and reading are inverse. *)
Lemma int_of_digits_acc d acc :
  fold_left (fun a c => 10 * a + (nat_of_ascii c - 48))
            (chars (NilEmpty.string_of_uint d)) acc
  = Nat.of_uint_acc d acc.
Proof.
  revert acc. induction d; intros acc; cbn [NilEmpty.string_of_uint chars
    list_ascii_of_string fold_left Nat.of_uint_acc]; [reflexivity|..];
    rewrite IHd; f_equal; rewrite Nat.tail_mul_spec;
    match goal with |- context [nat_of_ascii ?c - 48] =>
      let v := eval vm_compute in (nat_of_ascii c - 48) in
      change (nat_of_ascii c - 48) with v end; lia.
Qed.

Lemma int_of_digits_str_of_nat n : int_of_digits (chars (str_of_nat n)) = n.
Proof.
  unfold int_of_digits, str_of_nat, NilZero.string_of_uint.
  rewrite <- (DecimalNat.Unsigned.of_to n) at 2.
  destruct (Nat.to_uint n) eqn:E; try apply int_of_digits_acc.
  reflexivity.
Qed.

Lemma digits_string_of_uint d :
  forallb is_digit (chars (NilEmpty.string_of_uint d)) = true.
Proof. induction d; cbn; auto. Qed.

Lemma str_of_nat_digits n : forallb is_digit (chars (str_of_nat n)) = true.
Proof.
  unfold str_of_nat, NilZero.string_of_uint.
  destruct (Nat.to_uint n); try apply digits_string_of_uint. reflexivity.
Qed.

Lemma str_of_nat_nonempty n : chars (str_of_nat n) <> [].
Proof.
  unfold str_of_nat, NilZero.string_of_uint.
  destruct (Nat.to_uint n) eqn:E; cbn; try discriminate.
Qed.

Lemma str_of_nat_inj n m : str_of_nat n = str_of_nat m -> n = m.
Proof.
  intros E. rewrite <- (int_of_digits_str_of_nat n), <- (int_of_digits_str_of_nat m).
  now rewrite E.
Qed.

(** ** Category path splitting *)

Section SplitFacts.
Import EcomPath.











End SplitFacts.





(** ** Trimming *)

Lemma chars_app a b : chars (a ++ b)%string = chars a ++ chars b.
Proof.
  unfold chars. induction a as [|c a IH]; [reflexivity|].
  change (String c a ++ b)%string with (String c (a ++ b)%string).
  cbn [list_ascii_of_string]. rewrite IH. reflexivity.
Qed.

Lemma str_app a b : str (a ++ b) = (str a ++ str b)%string.
Proof.
  rewrite <- (str_chars (str a ++ str b)%string).
  now rewrite chars_app, !chars_str.
Qed.

Lemma chars_inj a b : chars a = chars b -> a = b.
Proof. intros E. now rewrite <- (str_chars a), <- (str_chars b), E. Qed.

(** A text with no blank at either end. *)
Definition trimmed (l : list ascii) : Prop :=
  match l with [] => True | c :: _ => is_space c = false end
  /\ match rev l with [] => True | c :: _ => is_space c = false end.

Lemma lstrip_head l :
  match lstrip l with [] => True | c :: _ => is_space c = false end.
Proof.
  induction l as [|c l IH]; cbn; [exact I|].
  destruct (is_space c) eqn:E; [exact IH|exact E].
Qed.

Lemma lstrip_suffix l : exists p, l = p ++ lstrip l.
Proof.
  induction l as [|c l [p IH]]; [now exists []|]. cbn.
  destruct (is_space c).
  - exists (c :: p). cbn. now f_equal.
  - now exists [].
Qed.

Lemma lstrip_id l :
  match l with [] => True | c :: _ => is_space c = false end -> lstrip l = l.
Proof. destruct l as [|c l]; [reflexivity|]. cbn. now intros ->. Qed.

Lemma strip_chars_trimmed l : trimmed (strip_chars l).
Proof.
  unfold strip_chars, rstrip. split; [apply lstrip_head|].
  set (w := lstrip (rev l)).
  destruct (lstrip_suffix (rev w)) as [p Hp].
  destruct (rev (lstrip (rev w))) as [|c r] eqn:E; [exact I|].
  apply (f_equal (@rev ascii)) in Hp.
  rewrite rev_involutive, rev_app_distr, E in Hp. cbn in Hp.
  pose proof (lstrip_head (rev l)) as Hh. fold w in Hh. now rewrite Hp in Hh.
Qed.

Lemma trimmed_strip_chars l : trimmed l -> strip_chars l = l.
Proof.
  intros [Hh Hl]. unfold strip_chars, rstrip.
  rewrite (lstrip_id (rev l) Hl), rev_involutive. now apply lstrip_id.
Qed.

Lemma strip_idem s : strip (strip s) = strip s.
Proof.
  unfold strip. rewrite chars_str.
  now rewrite (trimmed_strip_chars _ (strip_chars_trimmed _)).
Qed.

Lemma trimmed_strip l : trimmed l -> strip (str l) = str l.
Proof. intros Ht. unfold strip. now rewrite chars_str, trimmed_strip_chars. Qed.

Lemma nonempty_str l : l <> [] -> nonempty (str l) = true.
Proof. now destruct l. Qed.

(** ** Gallery URL derivation *)

Section DeriveFacts.
Import GalleryUrls.

Definition not_sep (c : ascii) : bool := negb (is_sep c).

Lemma is_sep_lower c : is_sep c = true -> is_sep (lower_char c) = true.
Proof.
unfold is_sep. intros E. apply orb_prop in E as [E|E];
apply Ascii.eqb_eq in E; subst c; reflexivity.
Qed.

Lemma not_sep_of_lower e :
forallb not_sep (map lower_char e) = true -> forallb not_sep e = true.
Proof.
induction e as [|c e IH]; cbn; [easy|]. intros E.
apply andb_prop in E as [E1 E2]. rewrite (IH E2), andb_true_r.
unfold not_sep in *. destruct (is_sep c) eqn:Ec; [|reflexivity].
now rewrite (is_sep_lower _ Ec) in E1.
Qed.

Lemma ext_ok_not_sep e : ext_ok e = true -> forallb not_sep e = true.
Proof.
unfold ext_ok. intros E. apply not_sep_of_lower.
repeat (apply orb_prop in E as [E|E]);
apply String.eqb_eq in E; apply (f_equal chars) in E;
rewrite chars_str in E; rewrite E; reflexivity.
Qed.

Lemma digit_not_sep c : is_digit c = true -> not_sep c = true.
Proof.
unfold not_sep, is_sep. intros E.
destruct (Ascii.eqb c "-") eqn:E1; [apply Ascii.eqb_eq in E1; now subst c|].
destruct (Ascii.eqb c "_") eqn:E2; [apply Ascii.eqb_eq in E2; now subst c|].
reflexivity.
Qed.

Lemma dot_ext_shape t e :
dot_ext t = Some e -> t = "."%char :: e /\ ext_ok e = true.
Proof.
unfold dot_ext. destruct t as [|c t]; [discriminate|].
destruct c as [[] [] [] [] [] [] [] []]; try discriminate.
destruct (ext_ok t) eqn:E; [|discriminate]. intros [= ->]. auto.
Qed.

Lemma dot_ext_not_sep t e : dot_ext t = Some e -> forallb not_sep t = true.
Proof.
intros E. apply dot_ext_shape in E as [-> E]. cbn.
now apply ext_ok_not_sep.
Qed.

#[local] Arguments dot_ext : simpl never.
#[local] Arguments num_ext : simpl never.

Lemma num_ext_not_sep t r : num_ext t = Some r -> forallb not_sep t = true.
Proof.
unfold num_ext, orelse. intros E.
destruct t as [|d1 t1].
- cbn in E. discriminate.
- destruct t1 as [|d2 t2].
+ assert (Hn : dot_ext [] = None) by reflexivity.
destruct (is_digit d1) eqn:E1; cbn in E; rewrite ?Hn in E; cbn in E;
(destruct (dot_ext [d1]) eqn:Ed0; [|discriminate]);
now apply dot_ext_not_sep in Ed0.
+ destruct (is_digit d1 && is_digit d2) eqn:E12.
* apply andb_prop in E12 as [E1 E2].
destruct (dot_ext t2) eqn:Ed; cbn in E.
{ cbn. rewrite (digit_not_sep _ E1), (digit_not_sep _ E2).
now apply dot_ext_not_sep in Ed. }
rewrite E1 in E.
destruct (dot_ext (d2 :: t2)) eqn:Ed1; cbn in E.
{ cbn [forallb]. rewrite (digit_not_sep _ E1).
now apply dot_ext_not_sep in Ed1. }
destruct (dot_ext (d1 :: d2 :: t2)) eqn:Ed0; [|discriminate].
now apply dot_ext_not_sep in Ed0.
* destruct (is_digit d1) eqn:E1.
{ destruct (dot_ext (d2 :: t2)) eqn:Ed1; cbn in E.
- cbn [forallb]. rewrite (digit_not_sep _ E1).
now apply dot_ext_not_sep in Ed1.
- destruct (dot_ext (d1 :: d2 :: t2)) eqn:Ed0; [|discriminate].
now apply dot_ext_not_sep in Ed0. }
destruct (dot_ext (d1 :: d2 :: t2)) eqn:Ed0; [|discriminate].
now apply dot_ext_not_sep in Ed0.
Qed.

(** Past its first character a match of the tail pattern holds no
separator character. *)
Lemma sep_num_ext_not_sep t r :
sep_num_ext t = Some r -> forallb not_sep (tl t) = true.
Proof.
unfold sep_num_ext, orelse. intros E.
destruct t as [|c t1]; [reflexivity|]. cbn [tl].
destruct (is_sep c) eqn:Ec.
- destruct (num_ext t1) as [[n e]|] eqn:En; cbn in E.
+ now apply num_ext_not_sep in En.
+ destruct (num_ext (c :: t1)) as [[n e]|] eqn:En'; [|discriminate].
apply num_ext_not_sep in En'. cbn in En'.
now apply andb_prop in En' as [_ ?].
- destruct (num_ext (c :: t1)) as [[n e]|] eqn:En'; [|discriminate].
apply num_ext_not_sep in En'. cbn in En'.
now apply andb_prop in En' as [_ ?].
Qed.

Lemma sep_num_ext_fails r sep rest :
r <> [] -> is_sep sep = true -> sep_num_ext (r ++ sep :: rest) = None.
Proof.
intros Hr Hs. destruct (sep_num_ext (r ++ sep :: rest)) eqn:E; [|reflexivity].
apply sep_num_ext_not_sep in E. destruct r as [|c r]; [congruence|].
cbn in E. rewrite forallb_app in E. cbn in E. unfold not_sep at 2 in E.
rewrite Hs in E. cbn in E. now rewrite andb_false_r in E.
Qed.

Definition num_shape (num : list ascii) : Prop :=
(length num = 1 \/ length num = 2) /\ forallb is_digit num = true.

Lemma sep_num_ext_hit sep num ext :
is_sep sep = true -> num_shape num -> ext_ok ext = true ->
sep_num_ext (sep :: num ++ "."%char :: ext) = Some (Some sep, Some num, ext).
Proof.
intros Hs [Hl Hd] He. unfold sep_num_ext. rewrite Hs.
assert (Hn : num_ext (num ++ "."%char :: ext) = Some (Some num, ext)).
{ unfold num_ext. destruct num as [|d1 [|d2 [|d3 num]]]; cbn in Hl;
try (destruct Hl; discriminate); cbn in Hd.
- rewrite andb_true_r in Hd. cbn [app]. rewrite Hd.
cbn [andb is_digit]. replace (is_digit ".") with false by reflexivity.
cbn. unfold dot_ext. now rewrite He.
- apply andb_prop in Hd as [H1 Hd]. rewrite andb_true_r in Hd.
cbn [app]. rewrite H1, Hd. cbn. unfold dot_ext. now rewrite He. }
now rewrite Hn.
Qed.

Lemma lazy_base_hit base : forall acc sep num ext,
base <> [] -> forallb (fun c => negb (is_newline c)) base = true ->
is_sep sep = true -> num_shape num -> ext_ok ext = true ->
lazy_base acc (base ++ sep :: num ++ "."%char :: ext)
= Some (acc ++ base, Some sep, Some num, ext).
Proof.
induction base as [|c b IH]; intros acc sep num ext Hb Hnl Hs Hn He; [congruence|].
cbn in Hnl. apply andb_prop in Hnl as [Hc Hnl].
cbn [app lazy_base]. apply negb_true_iff in Hc. rewrite Hc.
destruct b as [|c' b'].
- cbn [app]. now rewrite sep_num_ext_hit.
- rewrite sep_num_ext_fails by (auto; discriminate).
rewrite IH by (auto; discriminate). now rewrite <- app_assoc.
Qed.

End DeriveFacts.

(** ** Gallery candidates *)

Section CandidateFacts.
Context `{World}.
Import GalleryUrls Gallery.

(** The keys under which a feed item can list gallery URLs. *)
Definition gallery_keys : list string :=
["images"; "extra_images"; "gallery"; "image_urls"]
++ flat_map numbered_keys (range 2 21).

Lemma flat_map_nil {A B} (f : A -> list B) l :
(forall x, In x l -> f x = []) -> flat_map f l = [].
Proof.
induction l as [|x l IH]; intros Hf; [reflexivity|]. cbn.
rewrite (Hf x) by now left. apply IH. intros y Hy. apply Hf. now right.
Qed.

Lemma explicit_urls_none item :
(forall k, In k gallery_keys -> truthy (get item k) = false) ->
explicit_urls item = [].
Proof.
intros Hno. unfold explicit_urls.
rewrite flat_map_nil, flat_map_nil; [reflexivity| |].
- intros i Hi. apply flat_map_nil. intros k Hk.
rewrite Hno; [reflexivity|]. unfold gallery_keys. apply in_or_app. right.
apply in_flat_map. eauto.
- intros k Hk. unfold _to_list_images. rewrite Hno; [reflexivity|].
unfold gallery_keys. apply in_or_app. now left.
Qed.

(** The URL numbered [i] next to a main URL [base sep num . ext]. *)
Definition derived_url (base : list ascii) (sep : ascii) (ext : list ascii)
(i : nat) : string :=
(str base ++ String sep "" ++ str_of_nat i ++ "." ++ str ext)%string.

Definition first_number (num : list ascii) : nat :=
if Nat.leb 1 (int_of_digits num) then int_of_digits num + 1 else 2.

Definition main_url (base : list ascii) (sep : ascii) (num ext : list ascii)
: list ascii := base ++ sep :: num ++ "."%char :: ext.

Lemma derive_numbered base sep num ext :
trimmed (main_url base sep num ext) ->
base <> [] -> forallb (fun c => negb (is_newline c)) base = true ->
is_sep sep = true -> num_shape num -> ext_ok ext = true ->
_derive_numbered_urls (str (main_url base sep num ext)) 8
= map (derived_url base sep ext) (range (first_number num) 9).
Proof.
intros Ht Hb Hnl Hs Hn He. unfold _derive_numbered_urls.
rewrite nonempty_str by (destruct base; [congruence|discriminate]).
cbn [negb]. rewrite chars_str, (trimmed_strip_chars _ Ht).
unfold main_url. rewrite lazy_base_hit by assumption. reflexivity.
Qed.

Lemma chars_derived base sep ext i :
chars (derived_url base sep ext i)
= base ++ sep :: chars (str_of_nat i) ++ "."%char :: ext.
Proof.
unfold derived_url. rewrite !chars_app, !chars_str. reflexivity.
Qed.

Lemma derived_url_inj base sep ext i j :
derived_url base sep ext i = derived_url base sep ext j -> i = j.
Proof.
intros E. apply (f_equal chars) in E. rewrite !chars_derived in E.
apply app_inv_head in E. injection E as E.
assert (E' : chars (str_of_nat i) ++ ["."%char] ++ ext
= chars (str_of_nat j) ++ ["."%char] ++ ext) by exact E.
rewrite !app_assoc in E'. apply app_inv_tail in E'.
apply app_inv_tail in E'. apply chars_inj in E'. now apply str_of_nat_inj.
Qed.

Lemma derived_url_not_main base sep num ext i :
int_of_digits num < i ->
derived_url base sep ext i <> str (main_url base sep num ext).
Proof.
intros Hlt E. apply (f_equal chars) in E.
rewrite chars_derived, chars_str in E. unfold main_url in E.
apply app_inv_head in E. injection E as E.
assert (E' : chars (str_of_nat i) ++ ["."%char] ++ ext
= num ++ ["."%char] ++ ext) by exact E.
rewrite !app_assoc in E'. apply app_inv_tail in E'.
apply app_inv_tail in E'. rewrite <- E', int_of_digits_str_of_nat in Hlt. lia.
Qed.

Lemma derived_url_trimmed base sep num ext i :
trimmed (main_url base sep num ext) -> base <> [] -> ext <> [] ->
trimmed (chars (derived_url base sep ext i)).
Proof.
unfold trimmed, main_url. intros [Hh Hl] Hb He. rewrite chars_derived.
destruct base as [|b base]; [congruence|]. split; [exact Hh|].
replace (rev ((b :: base) ++ sep :: num ++ "."%char :: ext))
with (rev ext ++ rev ((b :: base) ++ sep :: num ++ ["."%char])) in Hl.
2:{ rewrite <- rev_app_distr. f_equal. rewrite <- !app_assoc. cbn.
f_equal. f_equal. now rewrite <- app_assoc. }
replace (rev ((b :: base) ++ sep :: chars (str_of_nat i) ++ "."%char :: ext))
with (rev ext ++ rev ((b :: base) ++ sep :: chars (str_of_nat i) ++ ["."%char])).
2:{ rewrite <- rev_app_distr. f_equal. rewrite <- !app_assoc. cbn.
f_equal. f_equal. now rewrite <- app_assoc. }
destruct (rev ext) as [|c r] eqn:E; [|exact Hl].
apply (f_equal (@rev ascii)) in E. rewrite rev_involutive in E. now subst ext.
Qed.

Lemma clean_urls_id main urls : forall seen,
Forall (fun u => strip u = u /\ nonempty u = true /\ u <> main /\ ~ In u seen) urls ->
NoDup urls ->
clean_urls main seen urls = urls.
Proof.
induction urls as [|u urls IH]; intros seen Hall Hnd; [reflexivity|].
inversion Hall as [|? ? (Hs & Hne & Hm & Hseen) Hall']; subst.
inversion Hnd as [|? ? Hnotin Hnd']; subst.
cbn [clean_urls]. rewrite Hs, Hne. cbn [negb orb].
destruct (String.eqb_spec u main) as [->|_]; [congruence|]. cbn [orb].
rewrite bool_decide_eq_false_2 by (now rewrite list_elem_of_In).
f_equal. apply IH; [|exact Hnd'].
rewrite Forall_forall in Hall' |- *. intros x Hx.
destruct (Hall' x Hx) as (? & ? & ? & ?). repeat split; auto.
intros [<-|?]; auto.
Qed.

End CandidateFacts.

(** C7, as stated, fails when the numeric suffix is zero: for the main URL
    [sku-0.jpg] and no gallery fields the claim gives [sku-1.jpg] to
    [sku-8.jpg], the code starts at [sku-2.jpg]. *)
Lemma C7_zero_suffix_counterexample :
  let item := Sample.item_of [("image_url", VStr "sku-0.jpg")] in
  (forall k, In k gallery_keys -> truthy (get item k) = false)
  /\ Gallery.gallery_candidates (H:=Sample.world) item
     <> Ok (map (derived_url (chars "sku") "-" (chars "jpg"))
                (GalleryUrls.range (int_of_digits (chars "0") + 1) 9))
  /\ Gallery.gallery_candidates (H:=Sample.world) item
     = Ok ["sku-2.jpg"; "sku-3.jpg"; "sku-4.jpg"; "sku-5.jpg"; "sku-6.jpg";
           "sku-7.jpg"; "sku-8.jpg"].
Proof.
  cbv zeta. split; [|split].
  - intros k Hk. vm_compute in Hk.
    repeat (destruct Hk as [<-|Hk]; [reflexivity|]). destruct Hk.
  - vm_compute. discriminate.
  - vm_compute. reflexivity.
Qed.

(** C7 (amended): when the trimmed main URL reads [base sep num . ext] with
    a separator [-] or [_], one or two digits and a known image extension,
    and the item has no gallery field, the candidate list is
    [base sep i . ext] for [i] from [num + 1] (from 2 when [num] is zero) up
    to 8, in order: same separator, same extension, no duplicate and not the
    main URL. *)
Theorem C7_gallery_candidates `{World} :
  forall (item : gmap string value) (url : string)
         (base : list ascii) (sep : ascii) (num ext : list ascii),
    get item "image_url" = VStr url ->
    strip url = str (main_url base sep num ext) ->
    base <> [] ->
    forallb (fun c => negb (GalleryUrls.is_newline c)) base = true ->
    GalleryUrls.is_sep sep = true ->
    num_shape num ->
    GalleryUrls.ext_ok ext = true ->
    (forall k, In k gallery_keys -> truthy (get item k) = false) ->
    let candidates := map (derived_url base sep ext)
                          (GalleryUrls.range (first_number num) 9) in
    Gallery.gallery_candidates item = Ok candidates
    /\ NoDup candidates
    /\ ~ In (strip url) candidates.
Proof.
  intros item url base sep num ext Hget Hstrip Hb Hnl Hs Hn He Hno candidates.
  assert (Ht : trimmed (main_url base sep num ext)).
  { pose proof (strip_chars_trimmed (chars url)) as Ht.
    apply (f_equal chars) in Hstrip. unfold strip in Hstrip.
    rewrite !chars_str in Hstrip. now rewrite Hstrip in Ht. }
  assert (Hext : ext <> []) by (intros ->; discriminate He).
  assert (Hlt : forall i, In i (GalleryUrls.range (first_number num) 9) ->
                          int_of_digits num < i).
  { intros i Hi. unfold GalleryUrls.range in Hi. apply in_seq in Hi.
    unfold first_number in Hi.
    destruct (Nat.leb 1 (int_of_digits num)) eqn:E;
      [|apply Nat.leb_gt in E]; lia. }
  assert (Hnd : NoDup candidates).
  { apply (NoDup_fmap_2_strong (derived_url base sep ext)).
    - intros i j _ _. apply derived_url_inj.
    - apply NoDup_seq. }
  assert (Hnm : ~ In (strip url) candidates).
  { rewrite Hstrip. intros Hin. apply in_map_iff in Hin as (i & E & Hi).
    now apply (derived_url_not_main base sep num ext i (Hlt i Hi)). }
  split; [|split; assumption].
  unfold Gallery.gallery_candidates. rewrite Hget.
  assert (Hmain : strip_value (py_or (VStr url) (VStr "")) = Ok (strip url)).
  { unfold py_or. cbn [truthy]. destruct url; reflexivity. }
  rewrite Hmain, (explicit_urls_none item Hno), Hstrip.
  rewrite nonempty_str by (unfold main_url; destruct base; [congruence|discriminate]).
  rewrite derive_numbered by assumption. fold candidates. f_equal.
  apply clean_urls_id; [|exact Hnd].
  apply Forall_forall. intros u Hu.
  pose proof Hu as Hu'. apply list_elem_of_In, in_map_iff in Hu' as (i & <- & Hi).
  assert (Htr : trimmed (chars (derived_url base sep ext i)))
    by (eapply derived_url_trimmed; eauto).
  repeat split.
  - rewrite <- (str_chars (derived_url base sep ext i)). now apply trimmed_strip.
  - rewrite <- (str_chars (derived_url base sep ext i)). apply nonempty_str.
    rewrite chars_derived. destruct base; [congruence|discriminate].
  - now apply derived_url_not_main, Hlt.
  - intros [].
Qed.

Lemma C7_gallery_candidates_witness :
  let item := Sample.item_of [("image_url", VStr " sku-1.jpg")] in
  Gallery.gallery_candidates (H:=Sample.world) item
  = Ok (map (derived_url (chars "sku") "-" (chars "jpg")) (GalleryUrls.range 2 9)).
Proof.
  refine (proj1 (C7_gallery_candidates (H:=Sample.world)
            (Sample.item_of [("image_url", VStr " sku-1.jpg")]) " sku-1.jpg"
            (chars "sku") "-" (chars "1") (chars "jpg")
            _ _ _ _ _ _ _ _)).
  - reflexivity.
  - reflexivity.
  - discriminate.
  - reflexivity.
  - reflexivity.
  - split; [now left|reflexivity].
  - reflexivity.
  - intros k Hk. vm_compute in Hk.
    repeat (destruct Hk as [<-|Hk]; [reflexivity|]). destruct Hk.
Defined.

(** ** Flat category mapping *)

Section MappingFacts.
Context `{World}.
Variable _norm_key : string -> string.
Variable _mm_norm_key : string -> string.
Import CategoryMap.











End MappingFacts.




(** ** Identity resolution *)

Section ResolverFacts.

(** The four lookups of the resolver, each a [search(..., limit=1)]. *)
Definition by_vendor_link (cfg : config) (sku : string) (st : store) : option nat :=
match vendor_id cfg with
| Some v => option_map product_tmpl_id
(search1_link (fun l => Nat.eqb (partner_id l) (p_id v)
&& String.eqb (product_code l) sku) st)
| None => None
end.

Definition by_any_link (sku : string) (st : store) : option nat :=
option_map product_tmpl_id
(search1_link (fun l => String.eqb (product_code l) sku) st).

Definition by_default_code (sku : string) (st : store) : option nat :=
search1_template "default_code" sku st.

Definition by_barcode (barcode : string) (st : store) : option nat :=
search1_template "barcode" barcode st.

(** The first non-empty match of a chain. *)
Fixpoint first_match (chain : list (option nat)) : option nat :=
match chain with
| [] => None
| Some t :: _ => Some t
| None :: tl => first_match tl
end.

(** The chain the code walks: the supplier links only under the
supplier-code priority and with a code in hand, then the internal
reference, then the barcode, whatever the priority. *)
Definition resolution_chain (cfg : config) (sku barcode : string) (st : store)
: list (option nat) :=
(match map_by cfg with
| Supplierinfo => if nonempty sku then [by_vendor_link cfg sku st; by_any_link sku st]
else []
| _ => []
end)
++ (if nonempty sku then [by_default_code sku st] else [])
++ (if nonempty barcode then [by_barcode barcode st] else []).

Lemma find_template_chain cfg sku barcode st :
_find_template cfg sku barcode st = first_match (resolution_chain cfg sku barcode st).
Proof.
unfold _find_template, resolution_chain, by_vendor_link, by_any_link,
by_default_code, by_barcode.
destruct (map_by cfg), (nonempty sku), (nonempty barcode), (vendor_id cfg); cbn;
repeat match goal with
| |- context [option_map ?f ?x] => destruct x; cbn
| |- context [search1_template ?f ?s ?t] => destruct (search1_template f s t); cbn
end; reflexivity.
Qed.

End ResolverFacts.

(** C5, as stated, fails for the barcode priority: with one record holding
    the internal reference and another the barcode, the resolver configured
    on "barcode" returns the internal-reference match (record 0), not the
    barcode match (record 1) that the claim puts first. *)
Lemma C5_barcode_priority_counterexample :
  let cfg := {| map_by := BarcodeKey; vendor_id := None; default_categ_id := None;
                publish_on_website := false; website_id := None;
                batch_commit := 100 |} in
  let st := set_templates
              (fun _ => [Sample.item_of [("name", VStr "R0"); ("default_code", VStr "S")];
                         Sample.item_of [("name", VStr "R1"); ("barcode", VStr "B")]])
              empty_store in
  by_barcode "B" st = Some 1
  /\ _find_template cfg "S" "B" st = Some 0.
Proof. cbv zeta. split; vm_compute; reflexivity. Qed.

(** C5 (amended): the resolver returns the first non-empty match of a chain
    that depends on the priority only through the supplier links.  Under
    "supplier-code" with a non-empty sku: this vendor's link with that
    product code, any vendor's link with it, exact [default_code], exact
    barcode.  Under "internal-reference" and under "barcode" alike: exact
    [default_code], then exact barcode.  A lookup by sku is skipped when the
    sku is empty, the barcode lookup when the barcode is empty.  In
    particular a supplier-code match is returned whatever record holds the
    barcode. *)
Theorem C5_resolution_order :
  forall cfg sku barcode st,
    _find_template cfg sku barcode st
    = first_match (resolution_chain cfg sku barcode st)
    /\ (map_by cfg = Supplierinfo -> nonempty sku = true ->
        resolution_chain cfg sku barcode st
        = [by_vendor_link cfg sku st; by_any_link sku st; by_default_code sku st]
          ++ (if nonempty barcode then [by_barcode barcode st] else []))
    /\ (map_by cfg <> Supplierinfo -> nonempty sku = true ->
        resolution_chain cfg sku barcode st
        = by_default_code sku st
          :: (if nonempty barcode then [by_barcode barcode st] else []))
    /\ (forall t, map_by cfg = Supplierinfo -> nonempty sku = true ->
          by_vendor_link cfg sku st = Some t ->
          _find_template cfg sku barcode st = Some t).
Proof.
  intros cfg sku barcode st. split; [apply find_template_chain|].
  split; [|split].
  - intros Hm Hs. unfold resolution_chain. now rewrite Hm, Hs.
  - intros Hm Hs. unfold resolution_chain. rewrite Hs.
    destruct (map_by cfg); [congruence|reflexivity|reflexivity].
  - intros t Hm Hs Hv. rewrite find_template_chain. unfold resolution_chain.
    now rewrite Hm, Hs, Hv.
Qed.

Lemma C5_resolution_order_witness :
  let st := set_links
              (fun _ => [Some {| partner_id := 7; product_tmpl_id := 1;
                                 product_code := "S"; x_vendor_stock_info := 0 |}])
              (set_templates
                 (fun _ => [Sample.item_of [("name", VStr "stale"); ("barcode", VStr "B")];
                            Sample.item_of [("name", VStr "linked")]])
                 empty_store) in
  by_barcode "B" st = Some 0
  /\ _find_template Sample.cfg "S" "B" st = Some 1.
Proof.
  cbv zeta. split; [reflexivity|].
  refine (proj2 (proj2 (proj2 (C5_resolution_order Sample.cfg "S" "B" _))) 1 _ _ _);
    reflexivity.
Defined.

(** ** The run loop *)

Section LoopFacts.
Context `{World}.
Variable upsert : gmap string value -> Eff.M (S:=store) (nat * bool).
Import Run.




Lemma join_lines_single l : join_lines [l] = l.
Proof. reflexivity. Qed.

Lemma result_text_lines total c :
result_text total c = join_lines (msg_line total c :: firstn 200 (details c)).
Proof. unfold result_text. now destruct (details c). Qed.

End LoopFacts.



(** ** Descriptions *)

(** C3 at the failing input: on a schema with both [description_ecommerce]
    and [website_description], an item carrying only a web description
    leaves it in both fields of the record. *)
Lemma C3_two_description_fields_populated :
  let item := Sample.item_of [("name", VStr "Gamma"); ("sku", VStr "C");
                              ("website_description", VStr "<p>X</p>")] in
  let st := fst (Engine._upsert_product (H:=Sample.world) Sample.cfg item empty_store) in
  (t ← templates st !! 0; t !! "description_ecommerce") = Some (VStr "<p>X</p>")
  /\ (t ← templates st !! 0; t !! "website_description") = Some (VStr "<p>X</p>")
  /\ pt_has (World:=Sample.world) "description_ecommerce" = true
  /\ pt_has (World:=Sample.world) "website_description" = true.
Proof. cbv zeta. repeat split; vm_compute; reflexivity. Qed.

(** ** The statistics reconciler *)

Section SummaryFacts.
Import Stats.

Lemma expect_app lit rest : expect lit (lit ++ rest) = Some rest.
Proof.
induction lit as [|x lit IH]; [reflexivity|]. cbn.
now rewrite Ascii.eqb_refl.
Qed.

Definition starts_nondigit (s : list ascii) : Prop :=
match s with [] => True | c :: _ => is_digit c = false end.

Lemma digits_app d : forall acc rest,
forallb is_digit d = true -> starts_nondigit rest ->
digits acc (d ++ rest) = (acc ++ d, rest).
Proof.
induction d as [|c d IH]; intros acc rest Hd Hr.
- cbn. rewrite app_nil_r. destruct rest as [|c rest]; [reflexivity|].
cbn in Hr |- *. now rewrite Hr.
- cbn in Hd. apply andb_prop in Hd as [Hc Hd]. cbn. rewrite Hc.
rewrite IH by assumption. now rewrite <- app_assoc.
Qed.

Lemma digit_not_space c : is_digit c = true -> is_space c = false.
Proof.
unfold is_digit, is_space. intros E. apply andb_prop in E as [E1 E2].
apply Nat.leb_le in E1, E2.
repeat match goal with
| |- context [Nat.leb ?a ?b] =>
destruct (Nat.leb_spec a b); try lia
| |- context [Nat.eqb ?a ?b] =>
destruct (Nat.eqb_spec a b); try lia
end; reflexivity.
Qed.

Lemma lstrip_digits n rest :
lstrip (chars (str_of_nat n) ++ rest) = chars (str_of_nat n) ++ rest.
Proof.
pose proof (str_of_nat_digits n) as Hd. pose proof (str_of_nat_nonempty n) as Hn.
destruct (chars (str_of_nat n)) as [|c d]; [congruence|].
cbn in Hd. apply andb_prop in Hd as [Hc _]. cbn.
now rewrite (digit_not_space _ Hc).
Qed.

(** Reading back a label followed by a blank and a printed number. *)
Lemma labelled_printed label n rest :
starts_nondigit rest ->
labelled label (chars label ++ " "%char :: chars (str_of_nat n) ++ rest)
= Some (n, rest).
Proof.
intros Hr. unfold labelled. rewrite expect_app. cbn [mbind option_bind].
change (lstrip (" "%char :: ?x)) with (lstrip x). rewrite lstrip_digits.
rewrite digits_app by (auto using str_of_nat_digits). cbn [app].
pose proof (str_of_nat_nonempty n).
destruct (chars (str_of_nat n)) eqn:E; [congruence|].
now rewrite <- E, int_of_digits_str_of_nat.
Qed.

Lemma bar_printed label rest :
match chars label with [] => False | c :: _ => is_space c = false end ->
bar (chars " | " ++ chars label ++ rest) = Some (chars label ++ rest).
Proof.
intros Hl. unfold bar. destruct (chars label) as [|c l]; [contradiction|].
assert (Hsp : is_space " " = true) by reflexivity.
assert (Hbar : is_space "|" = false) by reflexivity.
change (chars " | ") with [" "%char; "|"%char; " "%char].
cbn [app lstrip]. rewrite Hsp, Hbar. cbn [expect mbind option_bind].
rewrite Ascii.eqb_refl. cbn [mbind option_bind lstrip]. now rewrite Hsp, Hl.
Qed.

Lemma chars_msg_line total c :
chars (Run.msg_line total c)
= chars "Total:" ++ " "%char :: chars (str_of_nat total)
++ chars " | " ++ chars "Creados:" ++ " "%char :: chars (str_of_nat (Run.created c))
++ chars " | " ++ chars "Actualizados:" ++ " "%char
:: chars (str_of_nat (Run.updated c))
++ chars " | " ++ chars "Fallidos:" ++ " "%char
:: chars (str_of_nat (Run.skipped c)).
Proof.
unfold Run.msg_line. rewrite !chars_app. reflexivity.
Qed.

(** The summary pattern reads back what the run loop printed. *)
Lemma summary_search_msg_line total c :
summary_search (chars (Run.msg_line total c))
= Some (total, Run.created c, Run.updated c, Run.skipped c).
Proof.
assert (E : summary_here (chars (Run.msg_line total c))
= Some (total, Run.created c, Run.updated c, Run.skipped c)).
{ rewrite chars_msg_line. unfold summary_here.
rewrite labelled_printed by reflexivity. cbn [mbind option_bind].
rewrite bar_printed by reflexivity. cbn [mbind option_bind].
rewrite labelled_printed by reflexivity. cbn [mbind option_bind].
rewrite bar_printed by reflexivity. cbn [mbind option_bind].
rewrite labelled_printed by reflexivity. cbn [mbind option_bind].
rewrite bar_printed by reflexivity. cbn [mbind option_bind].
rewrite <- (app_nil_r (chars (str_of_nat (Run.skipped c)))).
rewrite labelled_printed by exact I. reflexivity. }
destruct (chars (Run.msg_line total c)); cbn [summary_search]; now rewrite E.
Qed.

End SummaryFacts.

Section LinesFacts.
Import Stats.

Definition nl : ascii := "010"%char.

(** The characters of the joined lines. *)
Lemma chars_join_lines tl : forall l,
chars (Run.join_lines (l :: tl))
= chars l ++ concat (map (fun x => nl :: chars x) tl).
Proof.
unfold Run.join_lines.
induction tl as [|x tl IH]; intros l; cbn [fold_left map concat].
- now rewrite app_nil_r.
- rewrite IH, chars_app. cbn [chars list_ascii_of_string].
now rewrite <- app_assoc.
Qed.

Definition nl_headed (r : list ascii) : Prop :=
r = [] \/ exists r', r = nl :: r'.

Lemma lstrip_nl_app a : forall b,
match b with [] => False | c :: _ => Ascii.eqb c nl = false end ->
exists p a', a = p ++ a' /\ lstrip_nl (a ++ b) = a' ++ b.
Proof.
induction a as [|c a IH]; intros b Hb.
- exists [], []. split; [reflexivity|]. destruct b as [|c b]; [easy|].
cbn. fold nl. now rewrite Hb.
- cbn. fold nl. destruct (Ascii.eqb c nl) eqn:E.
+ destruct (IH b Hb) as (p & a' & -> & ->). now exists (c :: p), a'.
+ now exists [], (c :: a).
Qed.

(** Trailing line feeds are cut after a text that does not end in one, and
what is left after it is a prefix of what followed. *)
Lemma rstrip_nl_app m r :
match rev m with [] => False | c :: _ => Ascii.eqb c nl = false end ->
nl_headed r ->
exists r', rstrip_nl (m ++ r) = m ++ r' /\ nl_headed r'.
Proof.
intros Hm Hr. unfold rstrip_nl. rewrite rev_app_distr.
destruct (lstrip_nl_app (rev r) (rev m) Hm) as (p & a' & Ea & ->).
exists (rev a'). rewrite rev_app_distr, rev_involutive. split; [reflexivity|].
apply (f_equal (@rev ascii)) in Ea. rewrite rev_involutive, rev_app_distr in Ea.
destruct (rev a') as [|c x]; [now left|]. right.
destruct Hr as [->|[r0 ->]]; [discriminate|]. injection Ea as <- _. now exists x.
Qed.

Lemma splitlines_from_plain m : forall cur rest,
forallb (fun c => negb (is_linebreak c)) m = true ->
splitlines_from cur (m ++ rest) = splitlines_from (cur ++ m) rest.
Proof.
induction m as [|c m IH]; intros cur rest Hm; cbn [app].
- now rewrite app_nil_r.
- cbn in Hm. apply andb_prop in Hm as [Hc Hm]. apply negb_true_iff in Hc.
cbn [splitlines_from]. rewrite Hc, IH by assumption. now rewrite <- app_assoc.
Qed.

Lemma splitlines_first m r :
m <> [] -> forallb (fun c => negb (is_linebreak c)) m = true -> nl_headed r ->
exists tail, splitlines_from [] (m ++ r) = str m :: tail.
Proof.
intros Hne Hm Hr. rewrite splitlines_from_plain by assumption. cbn [app].
destruct Hr as [->|[r' ->]].
- exists []. cbn. destruct m; [congruence|reflexivity].
- eexists. cbn [splitlines_from]. unfold nl.
change (is_linebreak "010") with true. cbv iota. reflexivity.
Qed.

Lemma digit_not_linebreak c : is_digit c = true -> negb (is_linebreak c) = true.
Proof.
unfold is_digit, is_linebreak. intros E. apply andb_prop in E as [E1 E2].
apply Nat.leb_le in E1, E2.
repeat match goal with
| |- context [Nat.leb ?a ?b] => destruct (Nat.leb_spec a b); try lia
| |- context [Nat.eqb ?a ?b] => destruct (Nat.eqb_spec a b); try lia
end; reflexivity.
Qed.

Lemma printed_plain n :
forallb (fun c => negb (is_linebreak c)) (chars (str_of_nat n)) = true.
Proof.
pose proof (str_of_nat_digits n) as Hd.
induction (chars (str_of_nat n)) as [|c d IH]; [reflexivity|].
cbn in Hd |- *. apply andb_prop in Hd as [Hc Hd].
now rewrite (digit_not_linebreak _ Hc), IH.
Qed.

Lemma msg_line_plain total c :
forallb (fun c => negb (is_linebreak c)) (chars (Run.msg_line total c)) = true.
Proof.
rewrite chars_msg_line.
repeat (rewrite forallb_app || cbn [forallb] || rewrite printed_plain).
reflexivity.
Qed.

Lemma msg_line_last total c :
match rev (chars (Run.msg_line total c)) with
| [] => False
| x :: _ => Ascii.eqb x nl = false
end.
Proof.
rewrite chars_msg_line.
change (" "%char :: chars (str_of_nat (Run.skipped c)))
with ([" "%char] ++ chars (str_of_nat (Run.skipped c))).
rewrite !app_comm_cons, !app_assoc, rev_app_distr.
pose proof (str_of_nat_digits (Run.skipped c)) as Hd.
pose proof (str_of_nat_nonempty (Run.skipped c)) as Hn.
destruct (rev (chars (str_of_nat (Run.skipped c)))) as [|x r] eqn:E.
- apply (f_equal (@rev ascii)) in E. rewrite rev_involutive in E. now rewrite E in Hn.
- cbn [app]. assert (Hx : is_digit x = true).
{ rewrite forallb_forall in Hd. apply Hd. apply in_rev. rewrite E. now left. }
apply digit_not_linebreak in Hx. apply negb_true_iff in Hx.
destruct (Ascii.eqb_spec x nl) as [->|]; [discriminate Hx|reflexivity].
Qed.

(** The first line of the persisted text is the summary line. *)
Lemma first_line_is_summary total c :
exists tail,
splitlines (str (rstrip_nl (chars (Run.result_text total c))))
= Run.msg_line total c :: tail.
Proof.
rewrite result_text_lines, chars_join_lines.
destruct (rstrip_nl_app (chars (Run.msg_line total c))
(concat (map (fun x => nl :: chars x) (firstn 200 (Run.details c))))
(msg_line_last total c)) as (r' & E & Hr').
{ destruct (firstn 200 (Run.details c)); [now left|right]. cbn. eauto. }
unfold splitlines. rewrite chars_str, E.
destruct (splitlines_first (chars (Run.msg_line total c)) r') as [tail Ht];
[|apply msg_line_plain|exact Hr'|].
- rewrite chars_msg_line. discriminate.
- exists tail. now rewrite Ht, str_chars.
Qed.

End LinesFacts.

(** The keys of the feed that the catalog did not know before the run and
    knows after it. *)
Definition new_keys (keys pre post : list value) : nat :=
  length (filter (fun k => (k ∉ pre) /\ (k ∈ post)) keys).

Lemma recount_spec keys pre post total failed_base soft skip :
  Stats.recount keys pre post total failed_base soft skip
  = (total,
     Nat.min (total - (failed_base - soft)) (new_keys keys pre post),
     total - (failed_base - soft)
     - Nat.min (total - (failed_base - soft)) (new_keys keys pre post),
     failed_base - soft,
     soft + skip).
Proof.
  unfold Stats.recount, new_keys. destruct keys as [|k keys]; [|reflexivity].
  cbn [filter list_filter length]. now rewrite Nat.min_0_r.
Qed.

(** An item whose key reads like a gallery-skip event and that fails
    validation. *)
Definition skip_like_item : gmap string value :=
  Sample.item_of [("sku", VStr ("Galer" ++ String "237" "a saltada X1"))].

(** C1, as stated, fails on the gallery-skip half: a detail line that reads
    as a gallery-skip event is added to [no_extra_images] but is not
    subtracted from [failed]; here one such line leaves failed at 1 where
    the claim gives 0. *)
Lemma C1_gallery_skip_not_subtracted_counterexample :
  let run := Stats.action_run_import Sample.cfg (Engine._upsert_product Sample.cfg)
               (Ok [skip_like_item]) empty_store in
  exists out tail,
    snd run = Ok out
    /\ Stats.splitlines (Run.last_result (Stats.base_output out))
       = "Total: 1 | Creados: 0 | Actualizados: 0 | Fallidos: 1" :: tail
    /\ Stats.count Stats.is_soft tail = 0
    /\ Stats.count Stats.is_skip tail = 1
    /\ Stats.splitlines (Stats.rewritten_result out)
       = "Total: 1 | Creados: 0 | Actualizados: 0 | Fallidos: 1 | Sin imagen extra: 1"
         :: tail.
Proof.
  cbv zeta. eexists. eexists. split; [vm_compute; reflexivity|].
  split; [vm_compute; reflexivity|]. repeat split; vm_compute; reflexivity.
Qed.

(** C1 (amended): for every run the reconciler rewrites the first line of
    the persisted text from these counts.  [failed] is the loop's failed
    count minus the unreadable-image error lines among the detail lines (a
    gallery-skip line is not subtracted); successes are the total minus
    [failed]; [created] is the number of feed keys (chosen per [map_by])
    absent from the catalog snapshot taken before the run and present in the
    one taken after it, capped at the successes; [updated] is successes minus
    [created]; [no_extra_images] is the number of unreadable-image lines plus
    the number of gallery-skip lines.  With the catalog holding A and the
    feed holding A, B and C where B has no name, the rewritten line states
    created 1, updated 1, failed 1. *)
Theorem C1_reconciled_counts :
  (forall (W : World) (cfg : config)
          (upsert : gmap string value -> Eff.M (S:=store) (nat * bool))
          (items : list (gmap string value)) (st : store),
      let keys := Stats.feed_keys cfg items in
      let pre := Stats.snapshot cfg keys st in
      let st' := fst (Run.loop upsert items st) in
      let c := snd (Run.loop upsert items st) in
      let post := Stats.snapshot cfg keys st' in
      exists tail out,
        Stats.action_run_import cfg upsert (Ok items) st = (st', Ok out)
        /\ Stats.splitlines
             (str (Stats.rstrip_nl (chars (Run.last_result (Stats.base_output out)))))
           = Run.msg_line (length items) c :: tail
        /\ let soft := Stats.count Stats.is_soft tail in
           let skip := Stats.count Stats.is_skip tail in
           let failed := Run.skipped c - soft in
           let success := length items - failed in
           let created := Nat.min success (new_keys keys pre post) in
           let updated := success - created in
           Stats.rewritten_result out
           = Run.join_lines
               (("Total: " ++ str_of_nat (length items)
                 ++ " | Creados: " ++ str_of_nat created
                 ++ " | Actualizados: " ++ str_of_nat updated
                 ++ " | Fallidos: " ++ str_of_nat failed
                 ++ " | Sin imagen extra: " ++ str_of_nat (soft + skip))%string :: tail)
           /\ Stats.last_no_extra_images out = soft + skip)
  /\ (let a := Sample.item_of [("name", VStr "Alpha"); ("sku", VStr "A")] in
      let b := Sample.item_of [("sku", VStr "B")] in
      let c := Sample.item_of [("name", VStr "Gamma"); ("sku", VStr "C")] in
      let st := set_templates
                  (fun _ => [Sample.item_of [("name", VStr "Old"); ("default_code", VStr "A")]])
                  empty_store in
      option_map Stats.rewritten_result
        (match snd (Stats.action_run_import Sample.cfg (Engine._upsert_product Sample.cfg)
                      (Ok [a; b; c]) st) with
         | Ok out => Some out
         | Raise _ => None
         end)
      = Some (Run.join_lines
                ["Total: 3 | Creados: 1 | Actualizados: 1 | Fallidos: 1 | Sin imagen extra: 0";
                 "ERROR B: Falta 'name' en el item"])).
Proof.
  split; [|vm_compute; reflexivity].
  intros W cfg upsert items st keys pre st' c post.
  destruct (first_line_is_summary (length items) c) as [tail Ht].
  exists tail.
  unfold Stats.action_run_import, Run.action_run_import.
  fold keys. fold pre. unfold st', c in *.
  destruct (Run.loop upsert items st) as [st1 c1] eqn:El.
  cbn [fst snd Run.last_result] in *. rewrite Ht.
  rewrite summary_search_msg_line. fold post.
  eexists. split; [reflexivity|].
  cbn [Stats.base_output Run.last_result Stats.rewritten_result
       Stats.last_no_extra_images].
  split; [exact Ht|]. rewrite recount_spec. cbn [snd]. split; reflexivity.
Qed.

(** ** Frames: what a step leaves untouched *)

Section Keeps.
Context {S A : Type} (f : S -> A).

(** The computation leaves the observation [f] of the store as it was,
whether it returns or raises. *)
Definition keeps {B} (m : Eff.M (S:=S) B) : Prop :=
forall st, f (fst (m st)) = f st.

Lemma keeps_ret {B} (a : B) : keeps (Eff.ret a).
Proof. intros st. reflexivity. Qed.

Lemma keeps_raise {B} e : keeps (@Eff.raise S B e).
Proof. intros st. reflexivity. Qed.

Lemma keeps_lift {B} (r : result B) : keeps (Eff.lift r).
Proof. intros st. reflexivity. Qed.

Lemma keeps_gets {B} (g : S -> B) : keeps (Eff.gets g).
Proof. intros st. reflexivity. Qed.

Lemma keeps_modify g : (forall st, f (g st) = f st) -> keeps (Eff.modify g).
Proof. intros Hg st. apply Hg. Qed.

Lemma keeps_bind {B C} (m : Eff.M (S:=S) B) (k : B -> Eff.M C) :
keeps m -> (forall a, keeps (k a)) -> keeps (m ≫= k).
Proof.
intros Hm Hk st. unfold mbind, eff_bind, Eff.bind.
pose proof (Hm st) as H1. destruct (m st) as [st1 [a|e]]; cbn in *.
- now rewrite Hk.
- exact H1.
Qed.

End Keeps.

(** Structural descent through a computation, leaving the [modify] steps. *)
Ltac frame_step :=
  lazymatch goal with
  | |- keeps _ (Eff.ret _) => apply keeps_ret
  | |- keeps _ (Eff.raise _) => apply keeps_raise
  | |- keeps _ (Eff.lift _) => apply keeps_lift
  | |- keeps _ (Eff.gets _) => apply keeps_gets
  | |- keeps _ (_ ≫= _) => apply keeps_bind; [|intros ?]
  | |- keeps _ (Eff.modify _) => apply keeps_modify; intros ?
  | |- keeps _ (if ?b then _ else _) => destruct b
  | |- keeps _ (match ?x with _ => _ end) => destruct x
  | |- keeps _ (let '(_, _) := ?x in _) => destruct x
  end.

Ltac frame := repeat frame_step; try reflexivity.

(** The column of one field over the template table. *)
Definition column (k : string) (st : store) : list (option value) :=
  map (fun t : gmap string value => t !! k) (templates st).

Lemma column_alter k g i st :
  (forall t : gmap string value, g t !! k = t !! k) ->
  column k (set_templates (alter g i) st) = column k st.
Proof.
  intros Hg. unfold column. cbn.
  revert i. induction (templates st) as [|t ts IH]; intros i; [reflexivity|].
  destruct i as [|i]; cbn; [now rewrite Hg|]. f_equal. apply IH.
Qed.

Lemma column_write k i vals st :
  vals !! k = None -> column k (write_template i vals st) = column k st.
Proof.
  intros Hk. apply column_alter. intros t. unfold write_fields.
  rewrite lookup_union, Hk. now destruct (t !! k).
Qed.

Lemma lookup_set_if b k v (m : gmap string value) k' :
  Base.set_if b k v m !! k' = if b && bool_decide (k = k') then Some v else m !! k'.
Proof.
  unfold Base.set_if. destruct b; cbn; [|reflexivity].
  rewrite lookup_insert. now destruct (decide (k = k')); simplify_eq;
    rewrite ?bool_decide_eq_true_2, ?bool_decide_eq_false_2 by done.
Qed.

Section StageFrames.
Context `{World}.
Variable cfg : config.

(** The fields the description overlay may write on a template. *)
Definition brand_keys : list string :=
["website_description"; "description"; "description_sale";
"website_short_description"; "product_brand_id"; "brand_id"].

(** The fields the publication step may write. *)
Definition publish_keys : list string :=
["website_published"; "website_ids"; "website_id"].

Lemma supplier_step_templates item sku t :
keeps templates (Base.supplier_step cfg item sku t).
Proof. unfold Base.supplier_step. frame. Qed.


Lemma main_image_step_links item t :
keeps links (Base.main_image_step item t).
Proof. unfold Base.main_image_step. frame. Qed.


Lemma main_image_step_column item t k :
k <> "image_1920" -> keeps (column k) (Base.main_image_step item t).
Proof.
intros Hk. unfold Base.main_image_step. frame.
apply column_write. now rewrite lookup_singleton_ne.
Qed.

Lemma publish_step_links t : keeps links (Base.publish_step cfg t).
Proof. unfold Base.publish_step. frame. Qed.


Lemma publish_step_column t k :
k ∉ publish_keys -> keeps (column k) (Base.publish_step cfg t).
Proof.
intros Hk. unfold publish_keys in Hk.
assert (k <> "website_published" /\ k <> "website_ids" /\ k <> "website_id")
as (H1 & H2 & H3) by (repeat split; intros ->; apply Hk; set_solver).
unfold Base.publish_step. frame.
- apply column_write. now rewrite lookup_singleton_ne.
- apply column_alter. intros r. now rewrite lookup_insert_ne.
- apply column_write. now rewrite lookup_singleton_ne.
Qed.

Lemma resolve_categ_templates v :
keeps templates (Base.resolve_categ cfg v).
Proof. unfold Base.resolve_categ. frame. Qed.

Lemma resolve_categ_links v : keeps links (Base.resolve_categ cfg v).
Proof. unfold Base.resolve_categ. frame. Qed.


Lemma build_vals_templates item name sku barcode tmpl :
keeps templates (Base.build_vals cfg item name sku barcode tmpl).
Proof.
unfold Base.build_vals. frame; try apply resolve_categ_templates.
Qed.

Lemma build_vals_links item name sku barcode tmpl :
keeps links (Base.build_vals cfg item name sku barcode tmpl).
Proof. unfold Base.build_vals. frame; try apply resolve_categ_links. Qed.


(** *** The description overlay *)




Lemma brand_vals_frame {A} (f : store -> A) item vals :
(forall g st, f (set_brands g st) = f st) ->
keeps f (BrandNotes.brand_vals item vals).
Proof.
intros Hf. unfold BrandNotes.brand_vals. frame; apply Hf.
Qed.


Lemma column_set_brands k g st : column k (set_brands g st) = column k st.
Proof. reflexivity. Qed.

Lemma column_set_variants k g st : column k (set_variants g st) = column k st.
Proof. reflexivity. Qed.




(** *** The gallery overlay *)

Lemma create_image_frame {A} (f : store -> A) im :
(forall g st, f (set_images g st) = f st) ->
keeps f (Gallery.create_image im).
Proof. intros Hf. unfold Gallery.create_image. frame. apply Hf. Qed.

Lemma add_images_frame {A} (f : store -> A) t name vname existing seq_base clean :
(forall g st, f (set_images g st) = f st) ->
forall idx, keeps f
(Gallery.add_images t name vname existing seq_base idx clean).
Proof.
intros Hf. induction clean as [|url clean IH]; intros idx; cbn [Gallery.add_images].
- apply keeps_ret.
- apply keeps_bind; [|intros _; apply IH].
frame; try now apply create_image_frame.
Qed.

Lemma gallery_after_frame {A} (f : store -> A) item res :
(forall g st, f (set_images g st) = f st) ->
keeps f (Gallery.after_upsert cfg item res).
Proof.
intros Hf. unfold Gallery.after_upsert. frame; try now apply add_images_frame.
Qed.

(** *** The public-category overlay *)

Lemma walk_frame {A} (f : store -> A) names :
(forall g st, f (set_pubcats g st) = f st) ->
forall parent, keeps f (Ecom.walk cfg parent names).
Proof.
intros Hf. induction names as [|n names IH]; intros parent; cbn [Ecom.walk].
- apply keeps_ret.
- apply keeps_bind; [|intros c; apply IH].
unfold Ecom.get_or_create_node. frame. apply Hf.
Qed.

Lemma resolve_all_frame {A} (f : store -> A) values :
(forall g st, f (set_pubcats g st) = f st) ->
keeps f (Ecom.resolve_all cfg values).
Proof.
intros Hf. induction values as [|v values IH]; cbn [Ecom.resolve_all].
- apply keeps_ret.
- apply keeps_bind.
+ unfold Ecom._vc_get_or_create_public_category. now apply walk_frame.
+ intros c. apply keeps_bind; [exact IH|intros ids; apply keeps_ret].
Qed.

Lemma ecom_after_frame {A} (f : store -> A) item res :
(forall g st, f (set_pubcats g st) = f st) ->
(forall t ids st,
f (write_template t {["public_categ_ids" := VIds ids]} st) = f st) ->
keeps f (Ecom.after_upsert cfg item res).
Proof.
intros Hp Hw. unfold Ecom.after_upsert. frame; try now apply resolve_all_frame.
apply Hw.
Qed.



Lemma ecom_after_column item res k :
k <> "public_categ_ids" ->
keeps (column k) (Ecom.after_upsert cfg item res).
Proof.
intros Hk. apply ecom_after_frame; [reflexivity|].
intros t ids st. apply column_write. now rewrite lookup_singleton_ne.
Qed.

End StageFrames.

(** ** Runs of the upsert, step by step *)

Section Returns.
Context {S B : Type} (res : B).

(** When the computation returns, it returns [res]. *)
Definition returns_only (m : Eff.M (S:=S) B) : Prop :=
forall st st' r, m st = (st', Ok r) -> r = res.

Lemma returns_only_ret : returns_only (Eff.ret res).
Proof. intros st st' r [= _ <-]. reflexivity. Qed.

Lemma returns_only_bind {C} (m : Eff.M (S:=S) C) (k : C -> Eff.M B) :
(forall a, returns_only (k a)) -> returns_only (m ≫= k).
Proof.
intros Hk st st' r. unfold mbind, eff_bind, Eff.bind.
destruct (m st) as [st1 [a|e]]; [apply Hk|discriminate].
Qed.

End Returns.

Ltac returns_step :=
  lazymatch goal with
  | |- returns_only _ (Eff.ret _) => apply returns_only_ret
  | |- returns_only _ (_ ≫= _) => apply returns_only_bind; intros ?
  | |- returns_only _ (if ?b then _ else _) => destruct b
  | |- returns_only _ (match ?x with _ => _ end) => destruct x
  end.

Section Runs.
Context `{World}.
Variable cfg : config.

Lemma brand_after_returns item res :
returns_only res (BrandNotes.after_upsert cfg item res).
Proof. unfold BrandNotes.after_upsert. repeat returns_step. Qed.

Lemma gallery_after_returns item res :
returns_only res (Gallery.after_upsert cfg item res).
Proof. unfold Gallery.after_upsert. repeat returns_step. Qed.

Lemma ecom_after_returns item res :
returns_only res (Ecom.after_upsert cfg item res).
Proof. unfold Ecom.after_upsert. repeat returns_step. Qed.

(** A successful run of the whole operation is a successful run of the
base upsert followed by the three overlays, each handing on the result
of the base. *)
Lemma engine_run item st st4 r :
Engine._upsert_product cfg item st = (st4, Ok r) ->
exists st1 st2 st3,
Base._upsert_product cfg item st = (st1, Ok r)
/\ BrandNotes.after_upsert cfg item r st1 = (st2, Ok r)
/\ Gallery.after_upsert cfg item r st2 = (st3, Ok r)
/\ Ecom.after_upsert cfg item r st3 = (st4, Ok r).
Proof.
unfold Engine._upsert_product, Ecom._upsert_product, Gallery._upsert_product,
BrandNotes._upsert_product, mbind, eff_bind, Eff.bind.
destruct (Base._upsert_product cfg item st) as [st1 [r1|e]]; [|discriminate].
destruct (BrandNotes.after_upsert cfg item r1 st1) as [st2 [r2|e]] eqn:E2;
[|discriminate].
pose proof (brand_after_returns item r1 _ _ _ E2) as ->.
destruct (Gallery.after_upsert cfg item r1 st2) as [st3 [r3|e]] eqn:E3;
[|discriminate].
pose proof (gallery_after_returns item r1 _ _ _ E3) as ->.
intros E4. pose proof (ecom_after_returns item r1 _ _ _ E4) as ->.
now exists st1, st2, st3.
Qed.

(** The three last steps of the base upsert never raise. *)
Lemma supplier_step_ok item sku t st :
snd (Base.supplier_step cfg item sku t st) = Ok tt.
Proof.
unfold Base.supplier_step. destruct (vendor_id cfg); [|reflexivity].
now destruct (nonempty sku).
Qed.

Lemma main_image_step_ok item t st : snd (Base.main_image_step item t st) = Ok tt.
Proof.
unfold Base.main_image_step.
destruct (truthy _ && _); [|reflexivity].
destruct (Base._download_first_ok _); [|reflexivity].
now destruct (nonempty _ && _ && _).
Qed.

Lemma publish_step_ok t st : snd (Base.publish_step cfg t st) = Ok tt.
Proof.
unfold Base.publish_step. destruct (publish_on_website cfg); [|reflexivity].
unfold mbind, eff_bind, Eff.bind.
destruct (pt_has "website_published"); cbn;
(destruct (website_id cfg); [|reflexivity]);
(destruct (pt_has "website_ids"); [reflexivity|]);
now destruct (pt_has "website_id").
Qed.

(** A successful run of the base upsert, step by step. *)
Lemma base_run item st st1 t c :
Base._upsert_product cfg item st = (st1, Ok (t, c)) ->
exists name sku barcode vals st_a st_b,
Base.prepare item = Ok (name, sku, barcode)
/\ Base.build_vals cfg item name sku barcode
   (_find_template cfg sku barcode st) st = (st_a, Ok vals)
/\ Base.write_or_create (_find_template cfg sku barcode st) vals st_a
 = (st_b, Ok (t, c))
/\ st1 = fst (Base.publish_step cfg t
              (fst (Base.main_image_step item t
                      (fst (Base.supplier_step cfg item sku t st_b))))).
Proof.
unfold Base._upsert_product, mbind, eff_bind, Eff.bind, Eff.lift, Eff.gets.
destruct (Base.prepare item) as [[[name sku] barcode]|e]; [|discriminate].
destruct (Base.build_vals cfg item name sku barcode _ st) as [st_a [vals|e]] eqn:Ea;
  [|discriminate].
destruct (Base.write_or_create _ vals st_a) as [st_b [[t' c']|e]] eqn:Eb;
  [|discriminate].
cbn [fst].
pose proof (supplier_step_ok item sku t' st_b) as H1.
destruct (Base.supplier_step cfg item sku t' st_b) as [st_c [[]|e]] eqn:E1;
[|discriminate H1].
pose proof (main_image_step_ok item t' st_c) as H2.
destruct (Base.main_image_step item t' st_c) as [st_d [[]|e]] eqn:E2;
[|discriminate H2].
pose proof (publish_step_ok t' st_d) as H3.
destruct (Base.publish_step cfg t' st_d) as [st_e [[]|e]] eqn:E3; [|discriminate H3].
intros [= <- <- <-]. exists name, sku, barcode, vals, st_a, st_b.
split; [reflexivity|]. split; [exact Ea|]. split; [exact Eb|].
rewrite E1. cbn [fst]. rewrite E2. cbn [fst]. now rewrite E3.
Qed.

End Runs.

(** ** The values the base upsert writes *)

Section ValsFacts.
Context `{World}.
Variable cfg : config.

(** The condition under which the barcode enters [vals]. *)
Definition barcode_to_set (barcode : string) (tmpl owner : option nat) : bool :=
  nonempty barcode
  && match owner with
     | None => true
     | Some e => match tmpl with Some t => Nat.eqb e t | None => false end
     end.

Ltac lookup_vals :=
  repeat (rewrite lookup_set_if || rewrite lookup_insert_ne by discriminate
          || rewrite lookup_singleton_ne by discriminate);
  try reflexivity.

Lemma base_vals_identity item name sku barcode cost categ tmpl owner :
  let vals := Base.base_vals item name sku barcode cost categ tmpl owner in
  vals !! "default_code" = (if nonempty sku then Some (VStr sku) else None)
  /\ vals !! "barcode" = (if barcode_to_set barcode tmpl owner
                          then Some (VStr barcode) else None)
  /\ vals !! "standard_price" = option_map VFloat cost.
Proof.
  cbv zeta. unfold Base.base_vals. fold (barcode_to_set barcode tmpl owner).
  destruct categ, cost, (negb (Qle_bool _ 0)), (pt_has "weight_0"), (pt_has "weight");
    (split; [|split]); lookup_vals;
    rewrite ?andb_false_r, ?andb_true_r; cbn [andb bool_decide];
    rewrite ?bool_decide_eq_true_2, ?bool_decide_eq_false_2 by (reflexivity || discriminate);
    rewrite ?andb_false_r, ?andb_true_r;
    try rewrite lookup_insert_eq; lookup_vals.
Qed.

Lemma search1_template_column f s st :
  search1_template f s st
  = find_index (fun o => bool_decide (o = Some (VStr s))) (column f st).
Proof.
  unfold search1_template, column, field_is.
  induction (templates st) as [|t ts IH]; [reflexivity|]. cbn.
  now rewrite IH.
Qed.

Lemma search1_template_same f s st st' :
  templates st' = templates st -> search1_template f s st' = search1_template f s st.
Proof. intros E. unfold search1_template. now rewrite E. Qed.

Lemma build_vals_identity item name sku barcode tmpl st st_a vals :
  Base.build_vals cfg item name sku barcode tmpl st = (st_a, Ok vals) ->
  vals !! "default_code" = (if nonempty sku then Some (VStr sku) else None)
  /\ vals !! "barcode"
     = (if barcode_to_set barcode tmpl (search1_template "barcode" barcode st)
        then Some (VStr barcode) else None)
  /\ vals !! "standard_price" = option_map VFloat (Base.cost_of item).
Proof.
  unfold Base.build_vals, mbind, eff_bind, Eff.bind, Eff.gets, Eff.lift, Eff.ret.
  pose proof (resolve_categ_templates cfg (get item "category") st) as Ht.
  destruct (Base.resolve_categ cfg (get item "category") st) as [st' [categ|e]];
    [|discriminate].
  cbn [fst] in Ht. rewrite (search1_template_same _ _ _ _ Ht).
  pose proof (base_vals_identity item name sku barcode (Base.cost_of item) categ tmpl
                (search1_template "barcode" barcode st)) as (H1 & H2 & H3).
  destruct (pt_has "x_vendor_name").
  - destruct (strip_value _) as [vname|e]; [|discriminate].
    intros [= _ <-].
    rewrite !lookup_insert_ne, !lookup_set_if by discriminate.
    rewrite !bool_decide_eq_false_2, !andb_false_r by discriminate. auto.
  - intros [= _ <-]. rewrite !lookup_set_if.
    rewrite !bool_decide_eq_false_2, !andb_false_r by discriminate. auto.
Qed.

End ValsFacts.

Section EngineFacts.
Context `{World}.
Variable cfg : config.

(** The fields no step after the first write touches. *)
Definition settled (k : string) : Prop :=
  (k ∉ brand_keys) /\ (k ∉ publish_keys) /\ k <> "image_1920"
  /\ k <> "public_categ_ids".

Lemma settled_keys :
  settled "default_code" /\ settled "barcode" /\ settled "standard_price".
Proof.
  repeat split; try discriminate;
    intros Hin; apply list_elem_of_In in Hin; cbn in Hin;
    repeat (destruct Hin as [Hin|Hin]; [discriminate Hin|]); exact Hin.
Qed.


Lemma column_lookup k st i :
  column k st !! i = (fun t : gmap string value => t !! k) <$> templates st !! i.
Proof. unfold column. apply list_lookup_fmap. Qed.

Lemma column_after_write k t vals st :
  column k (write_template t vals st) !! t
  = (fun o => match vals !! k with Some v => Some v | None => o end)
      <$> column k st !! t.
Proof.
  rewrite !column_lookup. unfold write_template. cbn.
  rewrite list_lookup_alter_eq. destruct (templates st !! t) as [r|]; [|reflexivity].
  cbn. f_equal. unfold write_fields. rewrite lookup_union.
  destruct (vals !! k), (r !! k); reflexivity.
Qed.

Lemma column_after_write_ne k t vals st i :
  i <> t -> column k (write_template t vals st) !! i = column k st !! i.
Proof.
  intros Hi. rewrite !column_lookup. unfold write_template. cbn.
  now rewrite list_lookup_alter_ne.
Qed.

Lemma column_after_create k vals st :
  column k (fst (create_template vals st)) = column k st ++ [vals !! k].
Proof. unfold column, create_template. cbn. now rewrite map_app. Qed.

Lemma write_or_create_cases tmpl vals st st_b t c :
  Base.write_or_create tmpl vals st = (st_b, Ok (t, c)) ->
  (tmpl = Some t /\ c = false /\ st_b = write_template t vals st)
  \/ (tmpl = None /\ c = true /\ t = length (templates st)
      /\ st_b = fst (create_template vals st)).
Proof.
  unfold Base.write_or_create. destruct tmpl as [t0|].
  - intros [= <- <- <-]. left. auto.
  - cbn. intros [= <- <- <-]. right. auto.
Qed.

Lemma length_column k st : length (column k st) = length (templates st).
Proof. unfold column. apply length_map. Qed.

End EngineFacts.

(** ** Cost *)




(** ** Searches over a table *)

Section SearchFacts.
Context {A : Type} (p : A -> bool).

Lemma find_index_Some l i :
  find_index p l = Some i <->
  exists x, l !! i = Some x /\ p x = true
            /\ forall j y, j < i -> l !! j = Some y -> p y = false.
Proof.
  revert i. induction l as [|a l IH]; intros i; cbn [find_index].
  - split; [discriminate|]. intros (x & Hx & _). now rewrite lookup_nil in Hx.
  - destruct (p a) eqn:Ea.
    + split.
      * intros [= <-]. exists a. repeat split; auto. intros j y Hj. lia.
      * intros (x & Hx & Hp & Hfirst). destruct i as [|i]; [reflexivity|].
        specialize (Hfirst 0 a (Nat.lt_0_succ i) eq_refl). congruence.
    + split.
      * destruct (find_index p l) as [i'|] eqn:E; [|discriminate].
        intros [= <-]. destruct (proj1 (IH i') eq_refl) as (x & Hx & Hp & Hfirst).
        exists x. repeat split; auto.
        intros [|j] y Hj Hy; cbn in Hy; [congruence|]. apply (Hfirst j); [lia|exact Hy].
      * intros (x & Hx & Hp & Hfirst). destruct i as [|i]; cbn in Hx; [congruence|].
        assert (E : find_index p l = Some i).
        { apply IH. exists x. repeat split; auto.
          intros j y Hj Hy. apply (Hfirst (S j)); [lia|exact Hy]. }
        now rewrite E.
Qed.

Lemma find_index_None l :
  find_index p l = None <-> forall j y, l !! j = Some y -> p y = false.
Proof.
  induction l as [|a l IH]; cbn [find_index].
  - split; [|reflexivity]. intros _ j y Hy. now rewrite lookup_nil in Hy.
  - destruct (p a) eqn:Ea.
    + split; [discriminate|]. intros Hall. specialize (Hall 0 a eq_refl). congruence.
    + split.
      * destruct (find_index p l) eqn:E; [discriminate|]. intros _.
        intros [|j] y Hy; cbn in Hy; [congruence|]. now apply (proj1 IH eq_refl j).
      * intros Hall. rewrite (proj2 IH); [reflexivity|].
        intros j y Hy. now apply (Hall (S j)).
Qed.

Lemma find_index_lt l i : find_index p l = Some i -> i < length l.
Proof.
  intros E. apply find_index_Some in E as (x & Hx & _). now apply lookup_lt_Some in Hx.
Qed.

Lemma in_find_indices l i :
  In i (find_indices p l) <-> exists x, l !! i = Some x /\ p x = true.
Proof.
  revert i. induction l as [|a l IH]; intros i; cbn [find_indices].
  - split; [intros []|]. intros (x & Hx & _). now rewrite lookup_nil in Hx.
  - rewrite in_app_iff, in_map_iff. split.
    + intros [Hin|(j & <- & Hj)].
      * destruct (p a) eqn:Ea; [|destruct Hin]. destruct Hin as [<-|[]]. now exists a.
      * apply IH in Hj as (x & Hx & Hp). now exists x.
    + intros (x & Hx & Hp). destruct i as [|i]; cbn in Hx.
      * injection Hx as ->. rewrite Hp. left. now left.
      * right. exists i. split; [reflexivity|]. apply IH. now exists x.
Qed.

Lemma find_indices_head l first rest :
  find_indices p l = first :: rest -> find_index p l = Some first.
Proof.
  revert first rest. induction l as [|a l IH]; intros first rest; cbn; [discriminate|].
  destruct (p a) eqn:Ea; cbn.
  - now intros [= <- _].
  - destruct (find_indices p l) as [|f r] eqn:E; cbn; [discriminate|].
    intros [= <- _]. now rewrite (IH f r eq_refl).
Qed.

Lemma find_indices_nil l : find_indices p l = [] -> find_index p l = None.
Proof.
  intros E. apply find_index_None. intros j y Hy.
  destruct (p y) eqn:Ep; [|reflexivity].
  assert (Hin : In j (find_indices p l)) by (apply in_find_indices; eauto).
  now rewrite E in Hin.
Qed.

End SearchFacts.

(** ** Supplier links *)

Section LinkFacts.
Import Base.

Variable v : partner.
Variable sku : string.
Variable t : nat.
Variable stock : Z.

(** The two domains of the step and the row it writes. *)
Definition mine (l : supplierinfo) : bool :=
  Nat.eqb (partner_id l) (p_id v) && Nat.eqb (product_tmpl_id l) t.

Definition other (l : supplierinfo) : bool :=
  Nat.eqb (product_tmpl_id l) t && String.eqb (product_code l) sku
  && negb (Nat.eqb (partner_id l) (p_id v)).

Definition si_vals : supplierinfo :=
  {| partner_id := p_id v; product_tmpl_id := t; product_code := sku;
     x_vendor_stock_info := stock |}.

(** What the step leaves of a row it does not write: nothing of another
    vendor's row with this code on this record, the row itself otherwise. *)
Definition swept (r : option (option supplierinfo)) : option (option supplierinfo) :=
  match r with
  | Some (Some l) => Some (if other l then None else Some l)
  | o => o
  end.

Lemma unlink_length ids ls : length (unlink ids ls) = length ls.
Proof.
  induction ids as [|i ids IH]; [reflexivity|].
  change (unlink (i :: ids) ls) with (<[i:=None]> (unlink ids ls)).
  now rewrite length_insert.
Qed.

Lemma unlink_lookup ids (ls : list (option supplierinfo)) j :
  unlink ids ls !! j
  = if bool_decide (j ∈ ids) then (fun _ => None) <$> ls !! j else ls !! j.
Proof.
  induction ids as [|i ids IH]; [reflexivity|].
  change (unlink (i :: ids) ls) with (<[i:=None]> (unlink ids ls)).
  destruct (decide (i = j)) as [->|Hne].
  - rewrite bool_decide_eq_true_2 by (apply elem_of_cons; now left).
    destruct (ls !! j) as [r|] eqn:E.
    + rewrite list_lookup_insert_eq; [reflexivity|].
      rewrite unlink_length. now apply lookup_lt_Some in E.
    + apply lookup_ge_None. rewrite length_insert, unlink_length.
      now apply lookup_ge_None in E.
  - rewrite list_lookup_insert_ne by exact Hne. rewrite IH.
    destruct (bool_decide (j ∈ ids)) eqn:Ej.
    + apply bool_decide_eq_true in Ej.
      rewrite bool_decide_eq_true_2 by (apply elem_of_cons; now right).
      reflexivity.
    + apply bool_decide_eq_false in Ej.
      rewrite bool_decide_eq_false_2; [reflexivity|].
      intros Hin. apply elem_of_cons in Hin as [?|?]; [congruence|auto].
Qed.

Lemma live_lookup (q : supplierinfo -> bool) (ls : list (option supplierinfo)) j :
  (exists x, ls !! j = Some x /\ live q x = true)
  <-> exists l, ls !! j = Some (Some l) /\ q l = true.
Proof.
  split.
  - intros ([l|] & Hx & Hq); [|discriminate]. now exists l.
  - intros (l & Hl & Hq). now exists (Some l).
Qed.

(** The row the step ends up writing, and every other row swept. *)
Lemma reconcile_links_spec ls :
  exists i,
    reconcile_links v sku t stock ls !! i = Some (Some si_vals)
    /\ (forall j, j <> i -> reconcile_links v sku t stock ls !! j = swept (ls !! j))
    /\ (find_index (live mine) ls = Some i
        \/ (find_index (live mine) ls = None /\ find_index (live other) ls = Some i)
        \/ (find_index (live mine) ls = None /\ find_index (live other) ls = None
            /\ i = length ls)).
Proof.
  unfold reconcile_links. fold mine. fold other. fold si_vals.
  assert (Hsw : forall j, (if bool_decide (j ∈ find_indices (live other) ls)
                           then (fun _ => None) <$> ls !! j else ls !! j)
                          = swept (ls !! j)).
  { intros j. destruct (bool_decide _) eqn:E.
    - apply bool_decide_eq_true in E.
      apply list_elem_of_In, in_find_indices, live_lookup in E as (l & -> & Hl).
      cbn. now rewrite Hl.
    - apply bool_decide_eq_false in E. destruct (ls !! j) as [[l|]|] eqn:El; try reflexivity.
      cbn. destruct (other l) eqn:Hl; [|reflexivity]. exfalso. apply E.
      apply list_elem_of_In, in_find_indices, live_lookup. eauto. }
  destruct (find_index (live mine) ls) as [i|] eqn:Em.
  - (* the vendor already has a row *)
    exists i. pose proof (find_index_lt _ _ _ Em) as Hi.
    destruct (find_indices (live other) ls) as [|f r] eqn:Eo;
      (split;
       [apply list_lookup_insert_eq; now rewrite unlink_length
       |split; [|now left];
        intros j Hj; rewrite list_lookup_insert_ne by congruence;
        now rewrite unlink_lookup, Hsw]).
  - destruct (find_indices (live other) ls) as [|first rest] eqn:Eo.
    + (* no row at all: one is created *)
      exists (length ls). cbn [unlink fold_right].
      pose proof (find_indices_nil _ _ Eo) as Hn.
      split; [|split; [|right; right; auto]].
      * now rewrite lookup_app_r, Nat.sub_diag by lia.
      * intros j Hj. specialize (Hsw j). cbn in Hsw. rewrite <- Hsw.
        destruct (Nat.lt_ge_cases j (length ls)).
        -- now rewrite lookup_app_l.
        -- rewrite !(proj2 (lookup_ge_None _ _)); [reflexivity|lia|].
           rewrite length_app. cbn. lia.
    + (* another vendor's row is handed over *)
      exists first. pose proof (find_indices_head _ _ _ _ Eo) as Hf.
      pose proof (find_index_lt _ _ _ Hf) as Hlt.
      split; [|split; [|right; left; auto]].
      * apply list_lookup_insert_eq. now rewrite unlink_length, length_alter.
      * intros j Hj. rewrite list_lookup_insert_ne by congruence.
        rewrite unlink_lookup, list_lookup_alter_ne by congruence.
        rewrite <- Hsw.
        destruct (bool_decide (j ∈ rest)) eqn:E1.
        -- apply bool_decide_eq_true in E1.
           rewrite bool_decide_eq_true_2 by (apply elem_of_cons; now right).
           reflexivity.
        -- apply bool_decide_eq_false in E1.
           rewrite bool_decide_eq_false_2; [reflexivity|].
           intros Hin. apply elem_of_cons in Hin as [?|?]; [congruence|auto].
Qed.

End LinkFacts.

Section LinkUniqueness.
Import Base.





Variable v : partner.
Variable sku : string.
Variable t : nat.
Variable stock : Z.

Local Abbreviation R := (reconcile_links v sku t stock).

Lemma swept_live r l :
  swept v sku t r = Some (Some l) -> r = Some (Some l) /\ other v sku t l = false.
Proof.
  destruct r as [[l'|]|]; cbn; try discriminate.
  destruct (other v sku t l') eqn:E; [discriminate|]. now intros [= <-].
Qed.










End LinkUniqueness.

(** ** Invariants along a computation *)

Section Maintains.
Context {S : Type} (P : S -> Prop).



End Maintains.


Section LinkInvariant.
Context `{World}.



Lemma write_or_create_links tmpl vals : keeps links (Base.write_or_create tmpl vals).
Proof. unfold Base.write_or_create. destruct tmpl; intros st; reflexivity. Qed.







End LinkInvariant.




(** ** Idempotence of the supplier-link step *)

Section MoreSearchFacts.
Context {A : Type} (p : A -> bool).


Lemma find_find_index l : List.find p l = i ← find_index p l; l !! i.
Proof.
  induction l as [|a l IH]; [reflexivity|]. cbn.
  destruct (p a); [reflexivity|]. rewrite IH.
  now destruct (find_index p l).
Qed.

Lemma find_index_insert_hit l t x :
  find_index p l = Some t -> p x = true -> find_index p (<[t:=x]> l) = Some t.
Proof.
  intros E Hx. pose proof (find_index_lt _ _ _ E) as Hlt.
  apply find_index_Some in E as (y & Hy & Hp & Hfirst).
  apply find_index_Some. exists x. split; [now apply list_lookup_insert_eq|].
  split; [exact Hx|]. intros j z Hj Hz.
  rewrite list_lookup_insert_ne in Hz by lia. now apply (Hfirst j).
Qed.

Lemma find_index_insert_new l t x :
  find_index p l = None -> t < length l -> p x = true ->
  find_index p (<[t:=x]> l) = Some t.
Proof.
  intros E Hlt Hx. rewrite find_index_None in E.
  apply find_index_Some. exists x. split; [now apply list_lookup_insert_eq|].
  split; [exact Hx|]. intros j z Hj Hz.
  rewrite list_lookup_insert_ne in Hz by lia. now apply (E j).
Qed.

Lemma find_index_app_new l x :
  find_index p l = None -> p x = true -> find_index p (l ++ [x]) = Some (length l).
Proof.
  intros E Hx. rewrite find_index_None in E.
  apply find_index_Some. exists x.
  split; [now rewrite lookup_app_r, Nat.sub_diag by lia|].
  split; [exact Hx|]. intros j z Hj Hz.
  rewrite lookup_app_l in Hz by lia. now apply (E j).
Qed.

End MoreSearchFacts.

Section ReconcileIdem.
Import Base.
Variable v : partner.
Variable sku : string.
Variable t : nat.
Variable stock : Z.

Local Abbreviation R := (reconcile_links v sku t stock).




(** The vendor's link with the code: the first live row of the vendor
    carrying it. *)
Definition vendor_code_row (l : supplierinfo) : bool :=
  Nat.eqb (partner_id l) (p_id v) && String.eqb (product_code l) sku.

Lemma search1_link_find q st :
  search1_link q st = mjoin (i ← find_index (live q) (links st); links st !! i).
Proof. unfold search1_link. now rewrite find_find_index. Qed.

Lemma search1_link_Some q st l :
  search1_link q st = Some l <->
  exists i, find_index (live q) (links st) = Some i /\ links st !! i = Some (Some l).
Proof.
  rewrite search1_link_find. split.
  - destruct (find_index (live q) (links st)) as [i|]; [|discriminate]. cbn.
    destruct (links st !! i) as [[l'|]|] eqn:E; try discriminate.
    intros [= <-]. eauto.
  - intros (i & -> & Hl). cbn. now rewrite Hl.
Qed.

Lemma search1_link_None q st :
  search1_link q st = None <-> find_index (live q) (links st) = None.
Proof.
  rewrite search1_link_find. split.
  - destruct (find_index (live q) (links st)) as [i|] eqn:E; [|reflexivity]. cbn.
    apply find_index_Some in E as ([l|] & Hl & Hq & _); [|discriminate].
    rewrite Hl. discriminate.
  - now intros ->.
Qed.

(** Once the step has run, the vendor's link with the code leads to the
    record, provided that before it led there or did not exist. *)
Lemma vendor_link_after_reconcile st st1 :
  links st1 = R (links st) ->
  option_map product_tmpl_id (search1_link vendor_code_row st) = None
  \/ option_map product_tmpl_id (search1_link vendor_code_row st) = Some t ->
  option_map product_tmpl_id (search1_link vendor_code_row st1) = Some t.
Proof.
  intros E1 Hbefore.
  destruct (reconcile_links_spec v sku t stock (links st)) as (i & Hi & Hsw & _).
  assert (Hq : vendor_code_row (si_vals v sku t stock) = true).
  { unfold vendor_code_row, si_vals. cbn. now rewrite Nat.eqb_refl, String.eqb_refl. }
  assert (Hkept : forall l, vendor_code_row l = true -> other v sku t l = false).
  { intros l Hl. unfold vendor_code_row in Hl. apply andb_true_iff in Hl as [Hl _].
    unfold other. now rewrite Hl, andb_false_r. }
  destruct (search1_link vendor_code_row st1) as [l|] eqn:Es.
  2:{ apply search1_link_None in Es. rewrite find_index_None, E1 in Es.
      specialize (Es i _ Hi). cbn in Es. congruence. }
  cbn. f_equal.
  apply search1_link_Some in Es as (j & Hj & Hl). rewrite E1 in Hj, Hl.
  apply find_index_Some in Hj as (y & Hy & Hp & Hfirst).
  rewrite Hl in Hy. injection Hy as <-. cbn in Hp.
  destruct (decide (j = i)) as [->|Hne].
  { rewrite Hi in Hl. now injection Hl as <-. }
  rewrite Hsw in Hl by exact Hne. apply swept_live in Hl as [Hl _].
  (* the row was there before: the first such row is the same one *)
  destruct (search1_link vendor_code_row st) as [l0|] eqn:E0.
  2:{ apply search1_link_None in E0. rewrite find_index_None in E0.
      specialize (E0 j _ Hl). cbn in E0. congruence. }
  destruct Hbefore as [Hb|Hb]; [discriminate Hb|]. cbn in Hb. injection Hb as Hb.
  apply search1_link_Some in E0 as (j0 & Hj0 & Hl0).
  apply find_index_Some in Hj0 as (y0 & Hy0 & Hp0 & Hfirst0).
  rewrite Hl0 in Hy0. injection Hy0 as <-. cbn in Hp0.
  destruct (Nat.lt_trichotomy j0 j) as [Hlt|[->|Hgt]].
  - exfalso. destruct (decide (j0 = i)) as [->|Hne0].
    + specialize (Hfirst i _ Hlt Hi). cbn in Hfirst. congruence.
    + assert (Hr : R (links st) !! j0 = Some (Some l0)).
      { rewrite Hsw by exact Hne0. rewrite Hl0. cbn. now rewrite (Hkept l0 Hp0). }
      specialize (Hfirst j0 _ Hlt Hr). cbn in Hfirst. congruence.
  - rewrite Hl in Hl0. now injection Hl0 as <-.
  - exfalso. specialize (Hfirst0 j _ Hgt Hl). cbn in Hfirst0. congruence.
Qed.

End ReconcileIdem.

(** ** The record is found again *)

Section FoundAgain.
Context `{World}.
Variable cfg : config.

(** The resolver reads the link table and the two identity columns only. *)
Lemma find_template_frame sku barcode st st' :
  links st' = links st ->
  column "default_code" st' = column "default_code" st ->
  column "barcode" st' = column "barcode" st ->
  _find_template cfg sku barcode st' = _find_template cfg sku barcode st.
Proof.
  intros El Ed Eb. rewrite !find_template_chain.
  unfold resolution_chain, by_vendor_link, by_any_link, by_default_code, by_barcode,
    search1_link.
  now rewrite !search1_template_column, El, Ed, Eb.
Qed.

(** The column of a field the values carry, after the write or the
    creation. *)
Lemma column_written k x t vals st :
  vals !! k = Some x ->
  column k (write_template t vals st) = <[t := Some x]> (column k st).
Proof.
  intros Hk. apply list_eq. intros i.
  destruct (decide (i = t)) as [->|Hne].
  - rewrite column_after_write, Hk.
    destruct (column k st !! t) as [o|] eqn:E; cbn.
    + rewrite list_lookup_insert_eq; [reflexivity|]. now apply lookup_lt_Some in E.
    + symmetry. apply lookup_ge_None. rewrite length_insert.
      now apply lookup_ge_None in E.
  - rewrite column_after_write_ne by exact Hne.
    now rewrite list_lookup_insert_ne by congruence.
Qed.

(** A field written with the searched string is found on the record,
    when the search found that record or nothing before. *)
Lemma search1_after_write k s tmpl vals st st_b t c :
  Base.write_or_create tmpl vals st = (st_b, Ok (t, c)) ->
  vals !! k = Some (VStr s) ->
  (search1_template k s st = Some t
   \/ (search1_template k s st = None /\ t <= length (templates st))) ->
  t < length (templates st_b) ->
  search1_template k s st_b = Some t.
Proof.
  intros Hw Hk Hbefore Hlt. rewrite search1_template_column in *.
  apply write_or_create_cases in Hw as [(-> & -> & ->)|(-> & -> & -> & ->)].
  - rewrite (column_written k (VStr s)) by exact Hk.
    unfold write_template in Hlt. cbn in Hlt. rewrite length_alter in Hlt.
    destruct Hbefore as [Hb|[Hb _]].
    + apply find_index_insert_hit; [exact Hb|]. now apply bool_decide_eq_true_2.
    + apply find_index_insert_new; [exact Hb| |now apply bool_decide_eq_true_2].
      now rewrite length_column.
  - rewrite column_after_create, Hk, <- (length_column k).
    destruct Hbefore as [Hb|[Hb _]].
    + apply find_index_lt in Hb. rewrite length_column in Hb. lia.
    + apply find_index_app_new; [exact Hb|]. now apply bool_decide_eq_true_2.
Qed.

Lemma write_or_create_length tmpl vals st st_b t c :
  Base.write_or_create tmpl vals st = (st_b, Ok (t, c)) ->
  (c = false -> length (templates st_b) = length (templates st))
  /\ (c = true -> t < length (templates st_b)).
Proof.
  intros Hw.
  apply write_or_create_cases in Hw as [(-> & -> & ->)|(-> & -> & -> & ->)].
  - split; [|discriminate]. intros _. unfold write_template. cbn.
    apply length_alter.
  - split; [discriminate|]. intros _. unfold create_template. cbn.
    rewrite length_app. cbn. lia.
Qed.

Lemma search1_template_lt k s st t :
  search1_template k s st = Some t -> t < length (templates st).
Proof. unfold search1_template. apply find_index_lt. Qed.

End FoundAgain.

Section BaseFinds.
Context `{World}.
Variable cfg : config.

Lemma prepare_valid item name sku barcode :
  Base.prepare item = Ok (name, sku, barcode) ->
  nonempty sku || nonempty barcode = true.
Proof.
  unfold Base.prepare.
  destruct (strip_value _) as [s|e]; [|discriminate].
  destruct (strip_value _) as [b|e]; [|discriminate].
  destruct (negb (truthy _)); [discriminate|].
  destruct (negb (nonempty s || nonempty b)) eqn:E; [discriminate|].
  intros [= _ <- <-]. now apply negb_false_iff in E.
Qed.

Lemma supplier_step_links_eq item sku t st :
  links (fst (Base.supplier_step cfg item sku t st))
  = match vendor_id cfg with
    | Some v =>
        if nonempty sku
        then Base.reconcile_links v sku t
               (if pt_has "x_vendor_stock" then Base.vendor_stock_of item else 0%Z)
               (links st)
        else links st
    | None => links st
    end.
Proof.
  unfold Base.supplier_step. destruct (vendor_id cfg); [|reflexivity].
  now destruct (nonempty sku).
Qed.

(** After a successful base upsert the resolver finds the record the
    upsert returned. *)
Lemma base_finds_record item st st1 t c name sku barcode :
  Base._upsert_product cfg item st = (st1, Ok (t, c)) ->
  Base.prepare item = Ok (name, sku, barcode) ->
  _find_template cfg sku barcode st1 = Some t.
Proof.
  intros Hrun Hp.
  apply base_run in Hrun
    as (name' & sku' & barcode' & vals & st_a & st_b & Hp' & Hv & Hw & E1).
  rewrite Hp in Hp'. injection Hp' as <- <- <-.
  pose proof (prepare_valid _ _ _ _ Hp) as Hvalid.
  pose proof (build_vals_templates cfg item name sku barcode
                (_find_template cfg sku barcode st) st) as Ta.
  pose proof (build_vals_links cfg item name sku barcode
                (_find_template cfg sku barcode st) st) as La.
  rewrite Hv in Ta, La. cbn [fst] in Ta, La.
  destruct (build_vals_identity cfg _ _ _ _ _ _ _ _ Hv) as (Hdc & Hbc & _).
  pose proof (write_or_create_links (_find_template cfg sku barcode st) vals st_a) as Lb.
  rewrite Hw in Lb. cbn [fst] in Lb.
  pose proof (supplier_step_links_eq item sku t st_b) as Ls.
  pose proof (supplier_step_templates cfg item sku t st_b) as Ts.
  set (s := fst (Base.supplier_step cfg item sku t st_b)) in *.
  destruct settled_keys as ((_ & Pd & Id & _) & (_ & Pb & Ib & _) & _).
  assert (Efind : _find_template cfg sku barcode st1 = _find_template cfg sku barcode s).
  { apply find_template_frame; rewrite E1.
    - now rewrite publish_step_links, main_image_step_links.
    - now rewrite (publish_step_column cfg _ _ Pd), (main_image_step_column _ _ _ Id).
    - now rewrite (publish_step_column cfg _ _ Pb), (main_image_step_column _ _ _ Ib). }
  rewrite Efind. clear Efind E1 st1.
  rewrite Lb, La in Ls.
  remember (_find_template cfg sku barcode st) as t0 eqn:Et0.
  rewrite find_template_chain in Et0. unfold resolution_chain in Et0.
  rewrite find_template_chain. unfold resolution_chain.
  pose proof Hw as (Hlen_w & Hlen_c)%write_or_create_length.
  pose proof Hw as Hcases%write_or_create_cases.
  rewrite Ta in Hcases.
  assert (Hret : forall t', t0 = Some t' -> t' = t).
  { intros t' E. destruct Hcases as [(E' & _)|(E' & _)]; congruence. }
  (* the searches by field, after the write *)
  assert (Hafter : forall k x,
            vals !! k = Some (VStr x) ->
            (search1_template k x st = Some t
             \/ (search1_template k x st = None /\ t0 = None)
             \/ (search1_template k x st = None
                 /\ exists k' x', search1_template k' x' st = Some t)) ->
            search1_template k x s = Some t).
  { intros k x Hk Hb. rewrite (search1_template_same _ _ _ _ Ts).
    eapply (search1_after_write _ _ _ _ _ _ _ _ Hw Hk);
      rewrite ?(search1_template_same _ _ _ _ Ta), ?Ta.
    - destruct Hb as [Hb|[[Hb Hn]|[Hb (k' & x' & Hx)]]]; [now left|right; split; [exact Hb|]..].
      + destruct Hcases as [(E & _)|(_ & _ & -> & _)]; [congruence|lia].
      + apply search1_template_lt in Hx. lia.
    - destruct Hcases as [(E & -> & _)|(_ & -> & _)]; [|now apply Hlen_c].
      rewrite Hlen_w, Ta by reflexivity.
      destruct Hb as [Hb|[[Hb Hn]|[Hb (k' & x' & Hx)]]].
      + now apply search1_template_lt in Hb.
      + congruence.
      + now apply search1_template_lt in Hx. }
  clear Hw Hv Hcases Hlen_w Hlen_c.
  destruct (nonempty sku) eqn:Hs.
  2:{ (* no code: the barcode alone *)
    cbn in Hvalid. rewrite Hvalid in *.
    assert (Ed : t0 = by_barcode barcode st).
    { rewrite Et0. destruct (map_by cfg); cbn; now destruct (by_barcode barcode st). }
    assert (Hd : by_barcode barcode s = Some t).
    { unfold by_barcode in *. apply Hafter.
      - rewrite Hbc. unfold barcode_to_set. rewrite Hvalid, Ed. cbn.
        destruct (search1_template "barcode" barcode st); [|reflexivity].
        now rewrite Nat.eqb_refl.
      - destruct (search1_template "barcode" barcode st) as [t'|]; [left|right; left; auto].
        f_equal. now apply Hret. }
    destruct (map_by cfg); cbn; now rewrite Hd. }
  (* with a code in hand: the internal reference is enough *)
  assert (Hcode : t0 = first_match
                         ([by_default_code sku st]
                          ++ (if nonempty barcode then [by_barcode barcode st] else [])) ->
                  by_default_code sku s = Some t).
  { intros E. unfold by_default_code, by_barcode in *.
    apply Hafter; [exact Hdc|]. cbn in E.
    destruct (search1_template "default_code" sku st) as [t'|] eqn:Ec.
    - left. f_equal. now apply Hret.
    - destruct (nonempty barcode); cbn in E; [|right; left; auto].
      destruct (search1_template "barcode" barcode st) as [t'|] eqn:Eb.
      + right; right. split; [reflexivity|]. exists "barcode", barcode.
        rewrite Eb. f_equal. now apply Hret.
      + right; left; auto. }
  destruct (map_by cfg) eqn:Hm.
  - (* supplier-code priority *)
    destruct (vendor_id cfg) as [v|] eqn:Hven.
    + assert (Ha : by_vendor_link cfg sku s = Some t).
      { unfold by_vendor_link in *. rewrite Hven in *.
        apply (vendor_link_after_reconcile v sku t _ st s Ls).
        fold (vendor_code_row v sku).
        destruct (option_map product_tmpl_id (search1_link (vendor_code_row v sku) st))
          as [t'|] eqn:E; [right|now left].
        f_equal. apply Hret. rewrite Et0. cbn. unfold vendor_code_row in E. now rewrite E. }
      cbn. now rewrite Ha.
    + assert (Ha : by_vendor_link cfg sku s = None /\ by_vendor_link cfg sku st = None).
      { unfold by_vendor_link. now rewrite Hven. }
      destruct Ha as [Ha Ha0].
      assert (Hb : by_any_link sku s = by_any_link sku st).
      { unfold by_any_link, search1_link. now rewrite Ls. }
      cbn. rewrite Ha, Hb. cbn in Et0. rewrite Ha0 in Et0.
      destruct (by_any_link sku st) as [t'|] eqn:Eb.
      * f_equal. now apply Hret.
      * now rewrite (Hcode Et0).
  - cbn. now rewrite (Hcode Et0).
  - cbn. now rewrite (Hcode Et0).
Qed.

End BaseFinds.

(** ** Steps that cannot raise *)

Section Total.
Context {S : Type}.

(** The computation returns from every store. *)
Definition total {B} (m : Eff.M (S:=S) B) : Prop :=
  forall st, exists a, snd (m st) = Ok a.







End Total.


Section StageTotal.
Context `{World}.
Variable cfg : config.




Lemma prepare_strips item name sku barcode :
  Base.prepare item = Ok (name, sku, barcode) ->
  strip_value (py_or (py_or (get item "sku") (get item "default_code")) (VStr ""))
  = Ok sku
  /\ strip_value (py_or (get item "barcode") (VStr "")) = Ok barcode.
Proof.
  unfold Base.prepare.
  destruct (strip_value _) as [s|e]; [|discriminate].
  destruct (strip_value _) as [b|e]; [|discriminate].
  destruct (negb (truthy _)); [discriminate|].
  destruct (negb (nonempty s || nonempty b)); [discriminate|].
  now intros [= _ <- <-].
Qed.






End StageTotal.

(** ** The gallery on a second pass *)

Section GalleryAgain.
Context `{World}.
Variable cfg : config.







End GalleryAgain.

(** ** The second pass *)

Section SecondPass.
Context `{World}.
Variable cfg : config.








End SecondPass.

Section VendorLink.
Import Base.
Variable v : partner.
Variable sku : string.
Variable t : nat.
Variable stock : Z.


End VendorLink.

Section LinksAfter.
Context `{World}.
Variable cfg : config.



End LinksAfter.

(** ** Idempotence *)




(** * Further properties of the engine *)

(** ** Rejected items *)



(** ** What an upsert leaves alone *)

Section Rows.
Context `{World}.
Variable cfg : config.









End Rows.





(** ** Barcodes *)

Section Barcodes.
Context `{World}.
Variable cfg : config.





End Barcodes.




(** ** The gallery *)

Section GalleryFacts.
Context `{World}.
Variable cfg : config.

Lemma clean_urls_spec main urls : forall seen,
  NoDup (Gallery.clean_urls main seen urls)
  /\ forall u, u ∈ Gallery.clean_urls main seen urls ->
       nonempty u = true /\ strip u = u /\ u <> main /\ (u ∉ seen)
       /\ exists x, (x ∈ urls) /\ u = strip x.
Proof.
  induction urls as [|x urls IH]; intros seen; cbn [Gallery.clean_urls].
  - split; [constructor|]. intros u Hu. now apply elem_of_nil in Hu.
  - destruct (negb (nonempty (strip x)) || _ || _) eqn:E.
    + destruct (IH seen) as [Hnd Hall]. split; [exact Hnd|].
      intros u Hu. destruct (Hall u Hu) as (H1 & H2 & H3 & H4 & y & Hy & ->).
      repeat split; auto. exists y. split; [now apply elem_of_cons; right|reflexivity].
    + apply orb_false_iff in E as [E Hseen]. apply orb_false_iff in E as [Hne Hmain].
      apply negb_false_iff in Hne. apply bool_decide_eq_false in Hseen.
      destruct (IH (strip x :: seen)) as [Hnd Hall]. split.
      * constructor; [|exact Hnd]. intros Hin.
        destruct (Hall _ Hin) as (_ & _ & _ & Hnot & _). apply Hnot.
        apply elem_of_cons. now left.
      * intros u [->|Hu]%elem_of_cons.
        -- repeat split; auto.
           ++ apply strip_idem.
           ++ intros Heq. rewrite Heq, String.eqb_refl in Hmain. discriminate.
           ++ exists x. split; [apply elem_of_cons; now left|reflexivity].
        -- destruct (Hall u Hu) as (H1 & H2 & H3 & H4 & y & Hy & ->).
           repeat split; auto.
           ++ intros Hin. apply H4. apply elem_of_cons. now right.
           ++ exists y. split; [now apply elem_of_cons; right|reflexivity].
Qed.












End GalleryFacts.






(** X7: the candidate list of the gallery step is clean: it has no
    duplicate, every entry is trimmed and non-empty, none is the main image
    URL, and each is the trimmed form of a URL the feed gave or the derivation
    produced. *)
Theorem X7_gallery_candidates_clean `{World} :
  forall item main clean,
    strip_value (py_or (get item "image_url") (VStr "")) = Ok main ->
    Gallery.gallery_candidates item = Ok clean ->
    NoDup clean
    /\ forall u, u ∈ clean -> nonempty u = true /\ strip u = u /\ u <> main.
Proof.
  intros item main clean Hm. unfold Gallery.gallery_candidates. rewrite Hm.
  intros [= <-].
  match goal with
  | |- context [Gallery.clean_urls ?m [] ?us] =>
      destruct (clean_urls_spec m us []) as [Hnd Hall]
  end.
  split; [exact Hnd|]. intros u Hu.
  destruct (Hall u Hu) as (H1 & H2 & H3 & _). auto.
Qed.

Lemma X7_gallery_candidates_clean_witness :
  let item := Sample.item_of [("image_url", VStr " http://h/a.jpg ");
                              ("images", VStr "http://h/b.jpg, http://h/a.jpg ;;http://h/b.jpg");
                              ("foto3", VStr "  http://h/c.jpg")] in
  Gallery.gallery_candidates item = Ok ["http://h/b.jpg"; "http://h/c.jpg"]
  /\ NoDup ["http://h/b.jpg"; "http://h/c.jpg"].
Proof.
  cbv zeta. split; [vm_compute; reflexivity|].
  apply (X7_gallery_candidates_clean
           (Sample.item_of [("image_url", VStr " http://h/a.jpg ");
                            ("images", VStr "http://h/b.jpg, http://h/a.jpg ;;http://h/b.jpg");
                            ("foto3", VStr "  http://h/c.jpg")])
           "http://h/a.jpg"); vm_compute; reflexivity.
Defined.

(** ** The path splitter *)

Section SplitShape.
Import EcomPath.

(** A segment as the loop appends it. *)
Definition segment_ok (seg : string) : Prop :=
  nonempty seg = true /\ strip seg = seg.

Lemma flush_more buf parts :
  exists more, flush buf parts = parts ++ more /\ Forall segment_ok more.
Proof.
  unfold flush. destruct (nonempty (str (strip_chars buf))) eqn:E.
  - exists [str (strip_chars buf)]. split; [reflexivity|].
    constructor; [|constructor]. split; [exact E|].
    apply trimmed_strip, strip_chars_trimmed.
  - exists []. rewrite app_nil_r. split; [reflexivity|constructor].
Qed.

Lemma scan_more n : forall rest, length rest <= n ->
  forall prev depth buf parts,
  exists more,
    fst (scan prev rest depth buf parts) = parts ++ more /\ Forall segment_ok more.
Proof.
  induction n as [|n IH]; intros rest Hlen prev depth buf parts.
  { destruct rest; [|cbn in Hlen; lia]. exists []. cbn. rewrite app_nil_r.
    split; [reflexivity|constructor]. }
  destruct rest as [|ch tl].
  { exists []. cbn. rewrite app_nil_r. split; [reflexivity|constructor]. }
  cbn in Hlen.
  assert (Hflush : forall p r d,
             length r <= n ->
             exists more,
               fst (scan p r d [] (flush buf parts)) = parts ++ more
               /\ Forall segment_ok more).
  { intros p r d Hr. destruct (flush_more buf parts) as (m1 & -> & H1).
    destruct (IH r Hr p d [] (parts ++ m1)) as (m2 & -> & H2).
    exists (m1 ++ m2). rewrite app_assoc. split; [reflexivity|].
    apply Forall_app. now split. }
  assert (Hgt : exists more,
             fst (if Nat.eqb (bump ch depth) 0 && Ascii.eqb ch ">"
                     && match prev with Some p => Ascii.eqb p " " | None => false end
                     && match tl with [] => true | c1 :: _ => Ascii.eqb c1 " " end
                  then scan (Some ch) tl (bump ch depth) [] (flush buf parts)
                  else scan (Some ch) tl (bump ch depth) (buf ++ [ch]) parts)
             = parts ++ more /\ Forall segment_ok more).
  { destruct (_ && _ && _ && _); [apply Hflush; lia|apply IH; lia]. }
  cbn [scan]. destruct tl as [|c1 [|c2 tl2]]; try exact Hgt.
  destruct (Nat.eqb (bump ch depth) 0 && Ascii.eqb ch " " && Ascii.eqb c1 "/"
            && Ascii.eqb c2 " "); [|exact Hgt].
  apply Hflush. cbn in Hlen. lia.
Qed.

End SplitShape.

(** X8: the path splitter never returns an empty list, and every segment
    it returns is trimmed; the segments are all non-empty unless the text is
    blank, in which case the one segment is the empty string (so a blank but
    non-empty path names a category with an empty name). *)
Theorem X8_split_segments (text : string) :
  EcomPath._smart_split_ecom_path text <> []
  /\ (forall seg, seg ∈ EcomPath._smart_split_ecom_path text -> strip seg = seg)
  /\ ((forall seg, seg ∈ EcomPath._smart_split_ecom_path text -> nonempty seg = true)
      \/ (strip text = "" /\ EcomPath._smart_split_ecom_path text = [""])).
Proof.
  unfold EcomPath._smart_split_ecom_path.
  destruct (scan_more (length (chars text)) (chars text) (Nat.le_refl _) None 0 [] [])
    as (m1 & H1 & F1).
  destruct (EcomPath.scan None (chars text) 0 [] []) as [parts buf]. cbn in H1. subst.
  destruct (flush_more buf m1) as (m2 & -> & F2).
  assert (F : Forall segment_ok (m1 ++ m2)) by (apply Forall_app; now split).
  destruct (m1 ++ m2) as [|seg segs] eqn:E.
  - split; [discriminate|]. split.
    + intros seg ->%list_elem_of_singleton. apply strip_idem.
    + destruct (nonempty (strip text)) eqn:Hne.
      * left. intros seg ->%list_elem_of_singleton. exact Hne.
      * right. destruct (strip text); [now split|discriminate Hne].
  - split; [discriminate|]. split.
    + intros s Hs. now destruct (proj1 (Forall_forall _ _) F s Hs).
    + left. intros s Hs. now destruct (proj1 (Forall_forall _ _) F s Hs).
Qed.

Section SplitRoundTrip.
Import EcomPath.

(** A character a plain category name may contain: no parenthesis and no
    separator sign. *)
Definition plain_char (c : ascii) : bool :=
  negb (Ascii.eqb c "(" || Ascii.eqb c ")" || Ascii.eqb c "/" || Ascii.eqb c ">").

(** A plain category name: non-empty, trimmed, of plain characters. *)
Definition plain_name (n : list ascii) : Prop :=
  n <> [] /\ trimmed n /\ forallb plain_char n = true.

(** One separator of a path followed by a name. *)
Definition unit_chars (u : bool * list ascii) : list ascii :=
  (if fst u then chars " / " else chars " > ") ++ snd u.

(** The text of a path: a first name, then separators and names. *)
Definition path_chars (n1 : list ascii) (l : list (bool * list ascii)) : list ascii :=
  n1 ++ flat_map unit_chars l.

Definition end_ok (n : list ascii) : Prop :=
  match rev n with [] => True | c :: _ => is_space c = false end.

Lemma end_ok_tail c n : n <> [] -> end_ok (c :: n) -> end_ok n.
Proof.
  unfold end_ok. cbn [rev]. intros Hn.
  destruct (rev n) as [|x r] eqn:E; [|auto].
  apply (f_equal (@rev ascii)) in E. rewrite rev_involutive in E. contradiction.
Qed.

Lemma plain_char_bump c : plain_char c = true -> bump c 0 = 0.
Proof.
  unfold plain_char, bump. intros Hc. apply negb_true_iff in Hc.
  apply orb_false_iff in Hc as [Hc _]. apply orb_false_iff in Hc as [Hc _].
  apply orb_false_iff in Hc as [H1 H2]. rewrite H1, H2. reflexivity.
Qed.

Definition last_or (prev : option ascii) (n : list ascii) : option ascii :=
  match last n with Some c => Some c | None => prev end.

(** The loop reads a plain name into the buffer. *)
Lemma scan_name n : forall tail prev buf parts,
  forallb plain_char n = true -> end_ok n ->
  scan prev (n ++ tail) 0 buf parts = scan (last_or prev n) tail 0 (buf ++ n) parts.
Proof.
  induction n as [|c n IH]; intros tail prev buf parts Hp He.
  { cbn. now rewrite app_nil_r. }
  cbn [forallb] in Hp. apply andb_true_iff in Hp as [Hc Hp].
  assert (Hnext : scan (Some c) (n ++ tail) 0 (buf ++ [c]) parts
                  = scan (last_or prev (c :: n)) tail 0 (buf ++ c :: n) parts).
  { destruct n as [|c' n'] eqn:En.
    - cbn. reflexivity.
    - rewrite <- En in *. rewrite IH; [|exact Hp|apply (end_ok_tail c); [now subst|exact He]].
      rewrite <- app_assoc. cbn [app]. f_equal.
      unfold last_or. subst n. change (last (c :: c' :: n')) with (last (c' :: n')).
      destruct (last (c' :: n')) eqn:El; [reflexivity|].
      apply last_None in El. discriminate El. }
  assert (Hgt : Ascii.eqb c ">" = false).
  { unfold plain_char in Hc. apply negb_true_iff in Hc.
    now apply orb_false_iff in Hc as [_ Hc]. }
  change ((c :: n) ++ tail) with (c :: (n ++ tail)). cbn [scan].
  rewrite (plain_char_bump c Hc), Hgt, !andb_false_r.
  destruct (n ++ tail) as [|c1 [|c2 tl2]] eqn:E; [exact Hnext..|].
  destruct (Ascii.eqb c " " && Ascii.eqb c1 "/" && Ascii.eqb c2 " ") eqn:Es.
  2:{ cbn [Nat.eqb andb]. rewrite Es. exact Hnext. }
  exfalso. apply andb_true_iff in Es as [Es _]. apply andb_true_iff in Es as [E1 E2].
  apply Ascii.eqb_eq in E1, E2. subst c c1.
  destruct n as [|c' n'].
  - unfold end_ok in He. cbn in He. discriminate He.
  - cbn in E. injection E as -> _. cbn in Hp. discriminate Hp.
Qed.

Lemma lstrip_blank pre l :
  forallb is_space pre = true ->
  match l with [] => True | c :: _ => is_space c = false end ->
  lstrip (pre ++ l) = l.
Proof.
  intros Hpre Hl. induction pre as [|p pre IH]; cbn.
  - destruct l as [|c l]; [reflexivity|]. cbn. now rewrite Hl.
  - cbn in Hpre. apply andb_true_iff in Hpre as [-> Hpre]. now apply IH.
Qed.

Lemma forallb_rev_blank (l : list ascii) :
  forallb is_space (rev l) = forallb is_space l.
Proof.
  induction l as [|c l IH]; [reflexivity|]. cbn [rev forallb].
  rewrite forallb_app, IH. cbn. rewrite andb_true_r. apply andb_comm.
Qed.

Lemma blank_head (pre : list ascii) :
  forallb is_space pre = true ->
  match pre with [] => True | c :: _ => is_space c = true end.
Proof. destruct pre as [|c pre]; [auto|]. cbn. now intros [-> _]%andb_true_iff. Qed.

(** Blanks around a trimmed text are what [strip] removes. *)
Lemma strip_chars_padded pre n post :
  forallb is_space pre = true -> forallb is_space post = true ->
  n <> [] -> trimmed n -> strip_chars (pre ++ n ++ post) = n.
Proof.
  intros Hpre Hpost Hn [Hh Ht]. unfold strip_chars, rstrip.
  rewrite !rev_app_distr, <- app_assoc.
  rewrite (lstrip_blank (rev post) (rev n ++ rev pre)).
  - rewrite rev_app_distr, !rev_involutive. apply lstrip_blank; [exact Hpre|].
    destruct n; [contradiction|exact Hh].
  - now rewrite forallb_rev_blank.
  - destruct (rev n) as [|c r] eqn:E; [|exact Ht].
    apply (f_equal (@rev ascii)) in E. rewrite rev_involutive in E. contradiction.
Qed.

(** A buffer that holds the name [cur], possibly after a blank. *)
Definition holds (buf cur : list ascii) : Prop :=
  exists pre, forallb is_space pre = true /\ buf = pre ++ cur.

Lemma flush_holds buf cur post parts :
  holds buf cur -> forallb is_space post = true -> plain_name cur ->
  flush (buf ++ post) parts = parts ++ [str cur].
Proof.
  intros (pre & Hpre & ->) Hpost (Hn & Ht & _). unfold flush.
  rewrite <- app_assoc, (strip_chars_padded pre cur post Hpre Hpost Hn Ht).
  now rewrite (nonempty_str cur Hn).
Qed.

Lemma plain_name_end n : plain_name n -> end_ok n.
Proof. intros (_ & [_ Ht] & _). exact Ht. Qed.

Lemma plain_name_head n tail :
  plain_name n ->
  exists c r, n ++ tail = c :: r /\ Ascii.eqb c "/" = false.
Proof.
  intros (Hn & _ & Hp). destruct n as [|c n]; [contradiction|].
  exists c, (n ++ tail). split; [reflexivity|].
  cbn in Hp. apply andb_true_iff in Hp as [Hc _]. unfold plain_char in Hc.
  apply negb_true_iff in Hc. apply orb_false_iff in Hc as [Hc _].
  now apply orb_false_iff in Hc as [_ Hc].
Qed.

Lemma scan_slash prev rest buf parts :
  scan prev (chars " / " ++ rest) 0 buf parts
  = scan (Some " "%char) rest 0 [] (flush buf parts).
Proof. reflexivity. Qed.

Lemma scan_cons prev ch tl depth buf parts :
  scan prev (ch :: tl) depth buf parts
  = let depth := bump ch depth in
    let gt_or_plain :=
      if Nat.eqb depth 0 && Ascii.eqb ch ">"
         && match prev with Some p => Ascii.eqb p " " | None => false end
         && match tl with [] => true | c1 :: _ => Ascii.eqb c1 " " end
      then scan (Some ch) tl depth [] (flush buf parts)
      else scan (Some ch) tl depth (buf ++ [ch]) parts in
    match tl with
    | c1 :: ((c2 :: tl2) as tl1) =>
        if Nat.eqb depth 0 && Ascii.eqb ch " " && Ascii.eqb c1 "/" && Ascii.eqb c2 " "
        then scan (Some c2) tl2 depth [] (flush buf parts)
        else gt_or_plain
    | _ => gt_or_plain
    end.
Proof. reflexivity. Qed.

Lemma scan_gt prev c r buf parts :
  Ascii.eqb c "/" = false ->
  scan prev (chars " > " ++ c :: r) 0 buf parts
  = scan (Some " "%char) (c :: r) 0 [" "%char] (flush (buf ++ [" "%char]) parts).
Proof.
  intros Hc.
  change (chars " > " ++ c :: r) with (" "%char :: ">"%char :: " "%char :: c :: r).
  rewrite scan_cons. cbn [bump Ascii.eqb Nat.eqb andb Bool.eqb].
  rewrite scan_cons. cbn [bump Ascii.eqb Nat.eqb andb Bool.eqb].
  rewrite scan_cons. cbn [bump Ascii.eqb Nat.eqb andb Bool.eqb app].
  destruct r as [|c2 r2]; [reflexivity|]. now rewrite Hc.
Qed.

Lemma last_or_name prev n : n <> [] -> last_or prev n = last n.
Proof.
  intros Hn. unfold last_or. destruct (last n) eqn:El; [reflexivity|].
  apply last_None in El. contradiction.
Qed.

(** The loop over a separator and the name after it: the buffer is
    flushed and the name read into a fresh one. *)
Lemma scan_unit u tail prev buf cur parts :
  plain_name (snd u) -> holds buf cur -> plain_name cur ->
  exists buf',
    scan prev (unit_chars u ++ tail) 0 buf parts
    = scan (last (snd u)) tail 0 buf' (parts ++ [str cur])
    /\ holds buf' (snd u).
Proof.
  destruct u as [[] n]; unfold unit_chars; cbn [fst snd]; intros Hn Hb Hc;
    rewrite <- app_assoc; pose proof Hn as (Hne & _ & Hplain).
  - (* " / " *)
    exists ([] ++ n). split; [|exists []; now split].
    rewrite scan_slash, (scan_name n tail _ [] _ Hplain (plain_name_end n Hn)).
    rewrite <- (app_nil_r buf), (flush_holds buf cur [] parts Hb eq_refl Hc).
    now rewrite last_or_name.
  - (* " > " *)
    exists ([" "%char] ++ n). split; [|exists [" "%char]; now split].
    destruct (plain_name_head n tail Hn) as (c & r & E & Hslash).
    rewrite E, (scan_gt _ c r _ _ Hslash), <- E.
    rewrite (scan_name n tail _ _ _ Hplain (plain_name_end n Hn)).
    rewrite (flush_holds buf cur [" "%char] parts Hb eq_refl Hc).
    now rewrite last_or_name.
Qed.

Lemma scan_units l : forall prev buf cur parts,
  plain_name cur -> holds buf cur -> Forall (fun u => plain_name (snd u)) l ->
  flush (snd (scan prev (flat_map unit_chars l) 0 buf parts))
        (fst (scan prev (flat_map unit_chars l) 0 buf parts))
  = parts ++ map str (cur :: map snd l).
Proof.
  induction l as [|u l IH]; intros prev buf cur parts Hc Hb Hl.
  - cbn. rewrite <- (app_nil_r buf). apply (flush_holds buf cur [] parts Hb eq_refl Hc).
  - apply Forall_cons in Hl as [Hu Hl]. cbn [flat_map].
    destruct (scan_unit u (flat_map unit_chars l) prev buf cur parts Hu Hb Hc)
      as (buf' & -> & Hb').
    rewrite (IH _ buf' (snd u) _ Hu Hb' Hl). cbn [map]. now rewrite <- app_assoc.
Qed.

End SplitRoundTrip.

(** X9: splitting undoes joining.  For plain category names (non-empty,
    trimmed, without parentheses, [/] or [>]), the text made of the names
    joined by [" / "] or [" > "], in any mix, splits back into exactly those
    names, in order. *)
Theorem X9_split_joined_path :
  forall (n1 : list ascii) (l : list (bool * list ascii)),
    plain_name n1 -> Forall (fun u => plain_name (snd u)) l ->
    EcomPath._smart_split_ecom_path (str (path_chars n1 l))
    = map str (n1 :: map snd l).
Proof.
  intros n1 l H1 Hl. unfold EcomPath._smart_split_ecom_path, path_chars.
  rewrite chars_str.
  pose proof H1 as (Hne & _ & Hplain).
  rewrite (scan_name n1 (flat_map unit_chars l) None [] [] Hplain (plain_name_end n1 H1)).
  pose proof (scan_units l (last_or None n1) ([] ++ n1) n1 [] H1
                (ex_intro _ [] (conj eq_refl eq_refl)) Hl) as E.
  destruct (EcomPath.scan _ (flat_map unit_chars l) 0 ([] ++ n1) []) as [parts buf].
  cbn [fst snd] in E. rewrite E. reflexivity.
Qed.

Lemma X9_split_joined_path_witness :
  EcomPath._smart_split_ecom_path "Audio y video / TV > Soportes de pared"
  = ["Audio y video"; "TV"; "Soportes de pared"].
Proof.
  apply (X9_split_joined_path (chars "Audio y video")
           [(true, chars "TV"); (false, chars "Soportes de pared")]).
  - repeat split; (discriminate || reflexivity).
  - repeat constructor; (discriminate || reflexivity).
Defined.

(** ** The public category tree *)

Section TreeFacts.
Context `{World}.
Variable cfg : config.

(** The search domain of one node of the walk. *)
Definition node_match (parent : option nat) (name : string) (c : public_category)
    : bool :=
  String.eqb (pc_name c) name && bool_decide (pc_parent c = parent)
  && match Ecom.scope cfg with
     | Some w => bool_decide (pc_website c = Some w)
     | None => true
     end.

(** No two nodes of the same scope share a name under the same parent. *)
Definition tree_unique (cs : list public_category) : Prop :=
  forall i j a b,
    cs !! i = Some a -> cs !! j = Some b ->
    pc_name a = pc_name b -> pc_parent a = pc_parent b ->
    pc_website a = pc_website b -> i = j.

Lemma find_index_app_found {A} (p : A -> bool) l m i :
  find_index p l = Some i -> find_index p (l ++ m) = Some i.
Proof.
  intros E. pose proof (find_index_lt _ _ _ E) as Hlt.
  apply find_index_Some in E as (x & Hx & Hp & Hfirst).
  apply find_index_Some. exists x. split; [now rewrite lookup_app_l|].
  split; [exact Hp|]. intros j y Hj Hy. rewrite lookup_app_l in Hy by lia.
  now apply (Hfirst j).
Qed.

(** One node of the walk: found, or appended as the last row. *)
Lemma get_or_create_node_spec parent name st :
  exists c more,
    Ecom.get_or_create_node cfg parent name st
    = (set_pubcats (fun cs => cs ++ more) st, Ok c)
    /\ find_index (node_match parent name) (pubcats st ++ more) = Some c
    /\ (more = []
        \/ (find_index (node_match parent name) (pubcats st) = None
            /\ more = [{| pc_name := name; pc_parent := parent;
                          pc_website := Ecom.scope cfg |}])).
Proof.
  unfold Ecom.get_or_create_node, mbind, eff_bind, Eff.bind, Eff.gets.
  fold (node_match parent name).
  destruct (find_index (node_match parent name) (pubcats st)) as [c|] eqn:E.
  - exists c, []. rewrite app_nil_r. split; [|split; [exact E|now left]].
    unfold Eff.ret. f_equal. destruct st; unfold set_pubcats; cbn.
    now rewrite app_nil_r.
  - exists (length (pubcats st)), [{| pc_name := name; pc_parent := parent;
                                       pc_website := Ecom.scope cfg |}].
    split; [reflexivity|]. split; [|right; now split].
    apply find_index_app_new; [exact E|].
    unfold node_match. cbn. rewrite String.eqb_refl, bool_decide_eq_true_2 by reflexivity.
    destruct (Ecom.scope cfg); [now rewrite bool_decide_eq_true_2|reflexivity].
Qed.

Lemma set_pubcats_app m1 m2 st :
  set_pubcats (fun cs => cs ++ m2) (set_pubcats (fun cs => cs ++ m1) st)
  = set_pubcats (fun cs => cs ++ (m1 ++ m2)) st.
Proof. unfold set_pubcats. cbn. now rewrite app_assoc. Qed.

Lemma set_pubcats_nil st : set_pubcats (fun cs => cs ++ []) st = st.
Proof. destruct st. unfold set_pubcats. cbn. now rewrite app_nil_r. Qed.

(** A node that exists is found, and nothing is created. *)
Lemma node_found parent name st c :
  find_index (node_match parent name) (pubcats st) = Some c ->
  Ecom.get_or_create_node cfg parent name st = (st, Ok c).
Proof.
  intros E. unfold Ecom.get_or_create_node, mbind, eff_bind, Eff.bind, Eff.gets.
  fold (node_match parent name). now rewrite E.
Qed.

(** The walk appends rows and returns a node; every node on its way is
    found again on any store that extends the one it leaves. *)
Lemma walk_spec names : forall parent st,
  exists r more,
    Ecom.walk cfg parent names st = (set_pubcats (fun cs => cs ++ more) st, Ok r)
    /\ length more <= length names
    /\ (names = [] -> r = parent)
    /\ (tree_unique (pubcats st) -> tree_unique (pubcats st ++ more))
    /\ forall st2 ext,
         pubcats st2 = (pubcats st ++ more) ++ ext ->
         Ecom.walk cfg parent names st2 = (st2, Ok r).
Proof.
  induction names as [|name names IH]; intros parent st; cbn [Ecom.walk].
  - exists parent, []. rewrite set_pubcats_nil, app_nil_r.
    split; [reflexivity|]. split; [cbn; lia|]. split; [auto|]. split; [auto|].
    reflexivity.
  - unfold mbind, eff_bind, Eff.bind.
    destruct (get_or_create_node_spec parent name st) as (c & m1 & -> & Hfind & Hcase).
    destruct (IH (Some c) (set_pubcats (fun cs => cs ++ m1) st))
      as (r & m2 & -> & Hlen & _ & Huniq & Hagain).
    exists r, (m1 ++ m2). rewrite set_pubcats_app.
    split; [reflexivity|]. split.
    { rewrite length_app. cbn. destruct Hcase as [->|[_ ->]]; cbn; lia. }
    split; [discriminate|]. split.
    + intros Hu. rewrite app_assoc. apply Huniq. cbn.
      destruct Hcase as [->|[Hnone ->]]; [now rewrite app_nil_r|].
      (* the created row matches no row *)
      rewrite find_index_None in Hnone.
      intros i j a b Hi Hj En Ep Ew.
      assert (Hnew : forall k x, (pubcats st ++ [{| pc_name := name; pc_parent := parent;
                                                   pc_website := Ecom.scope cfg |}]) !! k
                                 = Some x ->
                                 (k < length (pubcats st) /\ pubcats st !! k = Some x)
                                 \/ (k = length (pubcats st)
                                     /\ x = {| pc_name := name; pc_parent := parent;
                                               pc_website := Ecom.scope cfg |})).
      { intros k x Hk. destruct (Nat.lt_ge_cases k (length (pubcats st))).
        - left. rewrite lookup_app_l in Hk by assumption. auto.
        - right. rewrite lookup_app_r in Hk by lia.
          destruct (k - length (pubcats st)) as [|n] eqn:Ek; [|destruct n; discriminate].
          cbn in Hk. injection Hk as <-. split; [lia|reflexivity]. }
      assert (Hclash : forall k x, pubcats st !! k = Some x ->
                                   pc_name x = name -> pc_parent x = parent ->
                                   pc_website x = Ecom.scope cfg -> False).
      { intros k x Hk E1 E2 E3. specialize (Hnone k x Hk). unfold node_match in Hnone.
        rewrite E1, String.eqb_refl, bool_decide_eq_true_2 in Hnone by exact E2.
        destruct (Ecom.scope cfg); [|discriminate Hnone].
        now rewrite bool_decide_eq_true_2 in Hnone. }
      destruct (Hnew i a Hi) as [[_ Hi']|[-> ->]], (Hnew j b Hj) as [[_ Hj']|[-> ->]];
        cbn in *; try reflexivity.
      * exact (Hu i j a b Hi' Hj' En Ep Ew).
      * exfalso. exact (Hclash i a Hi' En Ep Ew).
      * exfalso. exact (Hclash j b Hj' (eq_sym En) (eq_sym Ep) (eq_sym Ew)).
    + intros st2 ext E2.
      assert (Hc : Ecom.get_or_create_node cfg parent name st2 = (st2, Ok c)).
      { apply node_found. rewrite E2.
        replace ((pubcats st ++ m1 ++ m2) ++ ext)
          with ((pubcats st ++ m1) ++ (m2 ++ ext)) by (now rewrite <- !app_assoc).
        now apply find_index_app_found. }
      rewrite Hc. apply (Hagain st2 ext). cbn. rewrite E2. now rewrite !app_assoc.
Qed.

End TreeFacts.

(** X10: resolving a category path is idempotent and only ever adds
    nodes.  The call appends at most one node per segment of the path and
    changes no existing node; repeated on the store it left, or on any store
    that has since gained further nodes, it returns the same node and creates
    nothing; and a tree in which no two nodes of the same scope share a name
    under the same parent stays so. *)
Theorem X10_category_path_idempotent `{World} (cfg : config) :
  forall path st,
  exists r more,
    Ecom._vc_get_or_create_public_category cfg path st
    = (set_pubcats (fun cs => cs ++ more) st, Ok r)
    /\ length more
       <= length (EcomPath._smart_split_ecom_path
                    (if truthy path then py_str path else ""))
    /\ (tree_unique (pubcats st) -> tree_unique (pubcats st ++ more))
    /\ forall st2 ext,
         pubcats st2 = (pubcats st ++ more) ++ ext ->
         Ecom._vc_get_or_create_public_category cfg path st2 = (st2, Ok r).
Proof.
  intros path st. unfold Ecom._vc_get_or_create_public_category.
  destruct (walk_spec cfg (EcomPath._smart_split_ecom_path
                             (if truthy path then py_str path else "")) None st)
    as (r & more & Hrun & Hlen & _ & Hu & Hagain).
  exists r, more. auto.
Qed.

Lemma X10_category_path_idempotent_witness :
  let first := Ecom._vc_get_or_create_public_category Sample.cfg
                 (VStr "Audio / TV") empty_store in
  snd first = Ok (Some 1)
  /\ map pc_name (pubcats (fst first)) = ["Audio"; "TV"]
  /\ Ecom._vc_get_or_create_public_category Sample.cfg (VStr "Audio / TV") (fst first)
     = first.
Proof.
  cbv zeta.
  destruct (X10_category_path_idempotent Sample.cfg (VStr "Audio / TV") empty_store)
    as (r & more & Hrun & _ & _ & Hagain).
  rewrite Hrun. cbn [fst snd].
  rewrite (Hagain (set_pubcats (fun cs => cs ++ more) empty_store) []
             (eq_sym (app_nil_r _))).
  vm_compute in Hrun. injection Hrun as Hmore Hr. rewrite <- Hr.
  split; [reflexivity|]. split; [|reflexivity].
  cbn. rewrite <- Hmore. reflexivity.
Defined.

(** ** Product categories *)

Section CategoryFacts.
Context `{World}.
Variable cfg : config.


(** The category table after a computation: the one before, or that one
    with one new name at its end. *)
Definition adds_category {B} (m : Eff.M (S:=store) B) : Prop :=
  forall st,
    categories (fst (m st)) = categories st
    \/ exists v, categories (fst (m st)) = categories st ++ [v]
                 /\ (v ∉ categories st) /\ default_categ_id cfg = None.

Lemma keeps_adds {B} (m : Eff.M (S:=store) B) : keeps categories m -> adds_category m.
Proof. intros Hk st. left. apply Hk. Qed.









End CategoryFacts.



(** ** The description overlay *)

Section OverlayFacts.
Context `{World}.
Variable cfg : config.

Lemma brand_vals_other item (vals : gmap string value) st k :
  k <> "product_brand_id" -> k <> "brand_id" ->
  match BrandNotes.brand_vals item vals st with
  | (_, Ok vals') => vals' !! k = vals !! k
  | (_, Raise _) => True
  end.
Proof.
  intros H1 H2. unfold BrandNotes.brand_vals.
  destruct (pt_has "product_brand_id"); [|destruct (pt_has "brand_id")];
    try reflexivity;
    (destruct (truthy _ && _); [|reflexivity]);
    unfold mbind, eff_bind, Eff.bind, Eff.gets, Eff.ret, Eff.modify;
    destruct (find_index _ _); cbn; now rewrite lookup_insert_ne.
Qed.

(** What the item gives as web description. *)
Definition web_html (item : gmap string value) : value :=
  if truthy (get item "website_description") then get item "website_description"
  else BrandNotes._as_html (py_or (get item "description") (get item "description_sale")).

(** The value the overlay writes in a description field it knows. *)
Definition overlay_value (item : gmap string value) (f : string) : value :=
  if String.eqb f "website_description" then py_or (web_html item) (VBool false)
  else VBool false.

Definition overlay_fields : list string :=
  "website_description" :: BrandNotes.legacy_fields.

Lemma description_vals_written has item f :
  f ∈ overlay_fields -> has f = true ->
  BrandNotes.description_vals has item !! f = Some (overlay_value item f).
Proof.
  intros Hf Hhas. unfold overlay_fields, BrandNotes.legacy_fields in Hf.
  unfold BrandNotes.description_vals, BrandNotes.clear_legacy,
    BrandNotes.legacy_fields, overlay_value. fold (web_html item). cbn [fold_left].
  repeat (apply elem_of_cons in Hf as [->|Hf]);
    [..|now apply elem_of_nil in Hf];
    rewrite !lookup_set_if, Hhas; cbn [String.eqb Ascii.eqb Bool.eqb andb];
    rewrite ?bool_decide_eq_false_2 by discriminate;
    rewrite ?andb_false_r; rewrite ?bool_decide_eq_true_2 by reflexivity;
    rewrite ?andb_true_r; try reflexivity.
Qed.

(** The column of a description field after the overlay, at the record
    the resolver finds. *)
Lemma brand_after_written item res name sku barcode t f st st' :
  Base.prepare item = Ok (name, sku, barcode) ->
  _find_template cfg sku barcode st = Some t ->
  BrandNotes.after_upsert cfg item res st = (st', Ok res) ->
  f ∈ overlay_fields -> pt_has f = true ->
  column f st' !! t = (fun _ => Some (overlay_value item f)) <$> column f st !! t.
Proof.
  intros (Hs & Hb)%prepare_strips Hfind Hrun Hf Hhas. revert Hrun.
  unfold BrandNotes.after_upsert, mbind, eff_bind, Eff.bind, Eff.lift, Eff.gets.
  rewrite Hs, Hb, Hfind.
  assert (Hne : f <> "product_brand_id" /\ f <> "brand_id").
  { unfold overlay_fields, BrandNotes.legacy_fields in Hf.
    repeat (apply elem_of_cons in Hf as [->|Hf]); [..|now apply elem_of_nil in Hf];
      split; discriminate. }
  pose proof (brand_vals_other item (BrandNotes.description_vals pt_has item) st f
                (proj1 Hne) (proj2 Hne)) as Hv.
  pose proof (brand_vals_frame (column f) item (BrandNotes.description_vals pt_has item)
                (fun _ _ => eq_refl) st) as Hc.
  destruct (BrandNotes.brand_vals item _ st) as [s1 [vals_t|e]]; [|discriminate].
  cbn [fst] in Hc. rewrite (description_vals_written pt_has item f Hf Hhas) in Hv.
  destruct (bool_decide (vals_t = ∅)) eqn:Ee.
  { apply bool_decide_eq_true in Ee. subst vals_t. rewrite lookup_empty in Hv.
    discriminate Hv. }
  destruct (bool_decide (BrandNotes.description_vals pp_has item = ∅));
    unfold Eff.modify, Eff.ret, BrandNotes.write_variants; cbv beta iota zeta;
    intros [= <-];
    rewrite ?column_set_variants, column_after_write, Hv, Hc;
    now destruct (column f st !! t).
Qed.

End OverlayFacts.

(** X12: whatever descriptions the item carries, after a successful upsert
    the record's [description], [description_sale] and
    [website_short_description] are cleared ([False]) wherever the schema has
    them, and its [website_description] is the item's web description, or
    else the markup made from its [description] or [description_sale], or
    [False] when there is none. *)
Theorem X12_description_overlay `{World} (cfg : config) :
  forall item st st' t c rec f,
    Engine._upsert_product cfg item st = (st', Ok (t, c)) ->
    templates st' !! t = Some rec ->
    f ∈ overlay_fields -> pt_has f = true ->
    rec !! f = Some (overlay_value item f).
Proof.
  intros item st st' t c rec f Hrun Hrec Hf Hhas.
  pose proof Hrun as (s1 & s2 & s3 & Hb & Hbr & Hg & He)%engine_run.
  pose proof Hb as (name & sku & barcode & _ & _ & _ & Hp & _)%base_run.
  pose proof (base_finds_record cfg _ _ _ _ _ _ _ _ Hb Hp) as F1.
  pose proof (brand_after_written cfg item (t, c) name sku barcode t f s1 s2
                Hp F1 Hbr Hf Hhas) as Hw.
  assert (Hpc : f <> "public_categ_ids").
  { unfold overlay_fields, BrandNotes.legacy_fields in Hf.
    repeat (apply elem_of_cons in Hf as [->|Hf]); [..|now apply elem_of_nil in Hf];
      discriminate. }
  pose proof (ecom_after_column cfg item (t, c) f Hpc s3) as C4.
  pose proof (gallery_after_frame cfg (column f) item (t, c) (fun _ _ => eq_refl) s2)
    as C3.
  rewrite He in C4. rewrite Hg in C3. cbn [fst] in C3, C4.
  rewrite <- C3, <- C4 in Hw. rewrite column_lookup, Hrec in Hw. cbn in Hw.
  destruct (column f s1 !! t); cbn in Hw; [|discriminate Hw]. now injection Hw.
Qed.

Lemma X12_description_overlay_witness :
  let item := Sample.item_of [("name", VStr "N"); ("sku", VStr "S");
                              ("description", VStr "plain text");
                              ("description_sale", VStr "sale text")] in
  let st' := fst (Engine._upsert_product Sample.cfg item empty_store) in
  forall rec,
    templates st' !! 0 = Some rec ->
    rec !! "description_sale" = Some (VBool false)
    /\ rec !! "website_description" = Some (VStr "<p>plain text</p>").
Proof.
  cbv zeta. intros rec Hrec.
  pose proof (fun f =>
                X12_description_overlay Sample.cfg
                  (Sample.item_of [("name", VStr "N"); ("sku", VStr "S");
                                   ("description", VStr "plain text");
                                   ("description_sale", VStr "sale text")])
                  empty_store _ 0 true rec f eq_refl Hrec) as Hx.
  split.
  - apply (Hx "description_sale"); [|reflexivity].
    apply list_elem_of_In. cbn. tauto.
  - apply (Hx "website_description"); [|reflexivity].
    apply list_elem_of_In. cbn. tauto.
Defined.
